(** * Rayment client SDK: pricing, payment verification, job lifecycle
      and batch scheduling

    A shallow embedding of [src/utils/solana.ts] (module [Solana]) and of
    [src/client.ts] (module [Client], the version that contains
    [renderBatch]).

    Conventions of the embedding:
    - a JavaScript [number] that holds an amount of money, a size, a rate
      or a duration in seconds is an IEEE 754 binary64 value ([float]):
      [+], [-], [*], [/] and [<] are the operations of the processor, and
      [NaN], the infinities and the two zeros are values like the others;
    - a millisecond timestamp, a delay and a count are integers ([Z],
      [nat]);
    - an optional field or an [undefined] value is an [option];
    - a function that may [throw] returns a [Res]: [Ok v] or [Throw msg],
      where [msg] is the [message] of the thrown error. *)

From Stdlib Require Import ZArith Lia Ascii Floats.
From stdpp Require Import gmap strings list.

Set Warnings "-inexact-float".

Inductive Res (A : Type) : Type :=
| Ok (v : A)
| Throw (msg : string).
Arguments Ok {A} v.
Arguments Throw {A} msg.

(** [a || d] on an optional string: [undefined] and the empty string are
    falsy. *)
Definition truthy (s : option string) : bool :=
  match s with
  | Some m => negb (String.eqb m "")
  | None => false
  end.

Definition str_or (s : option string) (d : string) : string :=
  match s with
  | Some m => if String.eqb m "" then d else m
  | None => d
  end.

(** [a || d] on an optional number: [undefined], [0], [-0] and [NaN] are
    falsy. *)
Definition num_or (x : option float) (d : float) : float :=
  match x with
  | Some q => if is_nan q || is_zero q then d else q
  | None => d
  end.

Definition int_or (x : option Z) (d : Z) : Z :=
  match x with
  | Some z => if Z.eqb z 0 then d else z
  | None => d
  end.

(** The number that an integer converts to: the nearest binary64 value,
    a tie going to the even one. *)
Definition of_Z (z : Z) : float :=
  SF2Prim (binary_normalize prec emax z 0 false).

(** The integer [n] as the rounding of a number of sign [s]: a zero
    keeps the sign. *)
Definition signed_of_Z (s : bool) (n : Z) : float :=
  if (n =? 0)%Z && s then neg_zero else of_Z n.

(** [Math.round]: the integral number nearest to [x], a tie going up.
    [x] is [m * 2^e], negated when [s] is set; with [0 <= e] it is
    integral already; otherwise the result is the floor of [x + 1/2],
    computed on integers, and a result of zero keeps the sign of [x].
    [NaN], the infinities and the zeros are returned as they are. *)
Definition Math_round (x : float) : float :=
  match Prim2SF x with
  | S754_finite s m e =>
      if (0 <=? e)%Z then x
      else
        let v := if s then Z.neg m else Z.pos m in
        signed_of_Z s ((2 * v + 2 ^ (- e)) / 2 ^ (1 - e))%Z
  | _ => x
  end.

(** [Math.max] of two numbers: [NaN] when either is [NaN], and [+0]
    counts as larger than [-0]. *)
Definition Math_max (x y : float) : float :=
  if is_nan x || is_nan y then nan
  else if (x <? y)%float then y
  else if (y <? x)%float then x
  else if is_zero x && get_sign x then y else x.

(* ================================================================== *)
(** * [src/utils/solana.ts] *)
(* ================================================================== *)

Module Solana.

Local Open Scope float_scope.

Record ProviderPricing := {
  pricePerFrame : float;
  pricePerSecond : float;
  pricePerGb : float;
  minimumPrice : float
}.

Record JobInfo := {
  fileSizeMb : float;
  frameCount : float;
  estimatedRenderSeconds : float
}.

Record PriceBreakdown := {
  basePrice : float;
  fileSizeFee : float;
  frameFee : float;
  estimatedRenderFee : float;
  platformFee : float;
  total : float
}.

(** [Math.round(t * 1000000) / 1000000] *)
Definition round6 (t : float) : float :=
  Math_round (t * 1000000) / 1000000.

(** [calculatePrice(pricing, jobInfo, platformFeePercent = 5)] *)
Definition calculatePrice (pricing : ProviderPricing) (jobInfo : JobInfo)
    (platformFeePercent : option float) : PriceBreakdown :=
  let pct := match platformFeePercent with Some p => p | None => 5 end in
  let fileSizeFee' := (fileSizeMb jobInfo / 1024) * pricePerGb pricing in
  let frameFee' := frameCount jobInfo * pricePerFrame pricing in
  let estimatedRenderFee' :=
    estimatedRenderSeconds jobInfo * pricePerSecond pricing in
  let subtotal := fileSizeFee' + frameFee' + estimatedRenderFee' in
  let basePrice' := Math_max subtotal (minimumPrice pricing) in
  let platformFee' := basePrice' * (pct / 100) in
  let total' := basePrice' + platformFee' in
  {| basePrice := basePrice';
     fileSizeFee := fileSizeFee';
     frameFee := frameFee';
     estimatedRenderFee := estimatedRenderFee';
     platformFee := platformFee';
     total := round6 total' |}.

(** The sum the floor is compared with ([subtotal] in the source). *)
Definition subtotal (b : PriceBreakdown) : float :=
  fileSizeFee b + frameFee b + estimatedRenderFee b.

(** The platform fee rate that a percentage stands for. *)
Definition feeRate (platformFeePercent : option float) : float :=
  match platformFeePercent with Some p => p | None => 5 end / 100.

(** ** [SolanaPayment.verifyPayment] *)

(** [LAMPORTS_PER_SOL] of [@solana/web3.js]. *)
Definition LAMPORTS_PER_SOL : float := 1000000000.

(** What the client reads of a confirmed transaction: [meta] may be
    [null]; [err] is the error object of a failed transaction; balances
    are in lamports, one per account key. *)
Record TxMeta := {
  err : option string;
  postBalances : list float;
  preBalances : list float
}.

Record ConfirmedTx := {
  meta : option TxMeta;
  staticAccountKeys : list string
}.

Record VerifyResult := {
  valid : bool;
  error : option string
}.

(** [tx.meta?.err] is truthy: the error of a failed transaction is an
    object, or a non-empty string. *)
Definition truthy_err (m : option TxMeta) : bool :=
  match m with
  | Some mt => match err mt with Some _ => true | None => false end
  | None => false
  end.

(** [Array.prototype.findIndex]: the first matching index, or [-1]. *)
Fixpoint findIndex_from {A} (p : A -> bool) (l : list A) (i : Z) : Z :=
  match l with
  | [] => (-1)%Z
  | x :: l' => if p x then i else findIndex_from p l' (i + 1)%Z
  end.

Definition findIndex {A} (p : A -> bool) (l : list A) : Z :=
  findIndex_from p l 0%Z.

(** [tx.meta?.postBalances || []] *)
Definition balances_or_empty (m : option TxMeta) (f : TxMeta -> list float)
    : list float :=
  match m with Some mt => f mt | None => [] end.

(** [balances[i]] as an operand of [-]: an index outside the array reads
    [undefined], which converts to [NaN]. *)
Definition balance_at (balances : list float) (i : Z) : float :=
  match balances !! Z.to_nat i with
  | Some a => a
  | None => nan
  end.

(** [(postBalances[i] - preBalances[i]) / LAMPORTS_PER_SOL] *)
Definition received_at (post pre : list float) (i : Z) : float :=
  (balance_at post i - balance_at pre i) / LAMPORTS_PER_SOL.

Section VerifyPayment.

(** The text JavaScript prints for a number inside a template string. *)
Variable Number_toString : float -> string.

(** [getTransaction] is the RPC call of the connection: it yields the
    transaction, [null] ([None]) when the signature is unknown, or it
    throws. *)
Variable getTransaction : string -> Res (option ConfirmedTx).

Definition verifyPayment (txSignature expectedTo : string)
    (expectedAmountSOL : float) (expectedMemo : option string)
    : VerifyResult :=
  match getTransaction txSignature with
  | Throw msg => {| valid := false; error := Some msg |}
  | Ok None => {| valid := false; error := Some "Transaction not found" |}
  | Ok (Some tx) =>
      if truthy_err (meta tx)
      then {| valid := false; error := Some "Transaction failed" |}
      else
        let postBalances' := balances_or_empty (meta tx) postBalances in
        let preBalances' := balances_or_empty (meta tx) preBalances in
        let toIndex :=
          findIndex (fun key => String.eqb key expectedTo)
                    (staticAccountKeys tx) in
        if (toIndex =? -1)%Z
        then {| valid := false;
                error := Some "Recipient not found in transaction" |}
        else
          let received := received_at postBalances' preBalances' toIndex in
          let tolerance := 0.0001 in
          if received <? expectedAmountSOL - tolerance
          then {| valid := false;
                  error := Some ("Insufficient amount: expected "
                                 +:+ Number_toString expectedAmountSOL
                                 +:+ ", got " +:+ Number_toString received) |}
          else
            (* if (expectedMemo) { memo verification skipped } *)
            {| valid := true; error := None |}
  end.

End VerifyPayment.

End Solana.

(* ================================================================== *)
(** * [src/client.ts] and [src/types.ts] *)
(* ================================================================== *)

Module Client.

(** ** Types ([types.ts]) *)

Inductive JobStatus :=
| job_pending_payment | job_paid | job_queued | job_rendering
| job_completed | job_failed | job_cancelled.

Definition JobStatus_eqb (a b : JobStatus) : bool :=
  match a, b with
  | job_pending_payment, job_pending_payment | job_paid, job_paid
  | job_queued, job_queued | job_rendering, job_rendering
  | job_completed, job_completed | job_failed, job_failed
  | job_cancelled, job_cancelled => true
  | _, _ => false
  end.

(** The fields of [RenderJob] that the client reads. *)
Record RenderJob := {
  job_id : string;
  job_status : JobStatus;
  job_renderTime : option float;
  job_error : option string
}.

Record PaymentRequired := {
  pay_jobId : string;
  price : float;
  breakdown : Solana.PriceBreakdown;
  payTo : string;
  expiresAt : Z;
  memo : string
}.

Record RaymentClientConfig := {
  wallet : option string;
  (** [this.solana]: present when a private key was configured; the
      value is the public key of its keypair. *)
  solana : option string
}.

Inductive FileState :=
| st_pending | st_uploading | st_paying | st_rendering
| st_downloading | st_completed | st_failed.

Record BatchFileStatus := {
  fs_file : string;
  fs_status : FileState;
  fs_progress : option Z;
  fs_error : option string;
  fs_jobId : option string;
  fs_cost : option float;
  fs_renderTime : option float;
  fs_outputPath : option string
}.

Record BatchFileResult := {
  file : string;
  outputPath : option string;
  jobId : option string;
  cost : option float;
  renderTime : option float;
  error : option string
}.

Record BatchProgress := {
  bp_total : nat;
  bp_completed : nat;
  bp_failed : nat;
  bp_inProgress : Z;
  bp_totalCost : float;
  bp_elapsedTime : float
}.

Record BatchStats := {
  stats_total : nat;
  stats_completed : nat;
  stats_failed : nat;
  avgRenderTime : float;
  avgCost : float
}.

Record BatchRenderResult := {
  successful : list BatchFileResult;
  failed : list BatchFileResult;
  totalCost : float;
  totalTime : float;
  stats : BatchStats
}.

(** [Partial<BatchFileStatus>]: [None] is an absent key; a key that is
    present with the value [undefined] is [Some None]. *)
Record StatusUpdate := {
  u_status : option FileState;
  u_progress : option (option Z);
  u_error : option string;
  u_jobId : option string;
  u_cost : option float;
  u_renderTime : option (option float);
  u_outputPath : option string
}.

Definition no_update : StatusUpdate :=
  {| u_status := None; u_progress := None; u_error := None; u_jobId := None;
     u_cost := None; u_renderTime := None; u_outputPath := None |}.

Definition over {A} (new : option A) (old : A) : A :=
  match new with Some v => v | None => old end.

Definition over_opt {A} (new : option A) (old : option A) : option A :=
  match new with Some v => Some v | None => old end.

(** [{ ...current, ...update }] *)
Definition merge (current : BatchFileStatus) (update : StatusUpdate)
    : BatchFileStatus :=
  {| fs_file := fs_file current;
     fs_status := over (u_status update) (fs_status current);
     fs_progress := over (u_progress update) (fs_progress current);
     fs_error := over_opt (u_error update) (fs_error current);
     fs_jobId := over_opt (u_jobId update) (fs_jobId current);
     fs_cost := over_opt (u_cost update) (fs_cost current);
     fs_renderTime := over (u_renderTime update) (fs_renderTime current);
     fs_outputPath := over_opt (u_outputPath update) (fs_outputPath current) |}.

Definition pending_status (f : string) : BatchFileStatus :=
  {| fs_file := f; fs_status := st_pending; fs_progress := None;
     fs_error := None; fs_jobId := None; fs_cost := None;
     fs_renderTime := None; fs_outputPath := None |}.

(** ** The world a job lifecycle runs in *)

(** What the client does to the outside, in order. *)
Inductive Event :=
| EvPostRender (filePath clientWallet : string)   (* POST /render *)
| EvSendPayment (toWallet : string) (amountSOL : float) (memo_ : string)
                                                  (* solana.sendPayment(..) *)
| EvSendTransaction (toWallet : string) (lamports : float)
                    (memo_ : option string)       (* sendAndConfirmTransaction *)
| EvPostPay (jobId_ txSignature : string)         (* POST /render/pay *)
| EvGetStatus (jobId_ : string)                   (* GET /render/:jobId *)
| EvSleep (ms : Z)                                (* setTimeout *)
| EvGetResult (jobId_ : string)                   (* GET /render/:jobId/result *)
| EvWriteFile (path : string)                     (* fs.writeFileSync *)
| EvFileProgress (file_ : string) (st : BatchFileStatus). (* onFileProgress *)

Record World := {
  now : Z;                                   (* Date.now() *)
  log : list Event;
  fileStatuses : gmap string BatchFileStatus
}.

(** An answer of the outside, with the time it took to arrive. *)
Record Timed (A : Type) := { took : Z; outcome : Res A }.
Arguments took {A} _.
Arguments outcome {A} _.

Inductive PostRenderResp :=
| Resp2xx                              (* the request succeeds: no quote *)
| Resp402 (payment : PaymentRequired)  (* error.response.status === 402 *)
| RespError (msg : string).            (* any other rejection *)

Record PayAck := { success : bool; ack_error : option string }.

(** The hub, the chain and the file system as one job sees them.
    [get_render] lists the answers to the successive status polls; once
    the list is used up the hub is unreachable and a poll is rejected
    with ["Network Error"].  [validAddress] tells whether
    [new PublicKey(..)] accepts an address, and [SystemProgram_transfer]
    is the message with which [SystemProgram.transfer] throws for an
    amount of lamports that it cannot encode, if it does. *)
Record Remote := {
  existsSync : string -> bool;
  post_render : string -> string -> Z * PostRenderResp;
  validAddress : string -> bool;
  SystemProgram_transfer : float -> option string;
  sendAndConfirmTransaction :
    string -> float -> option string -> Timed string;
  post_render_pay : string -> string -> Timed PayAck;
  get_render : list (Timed RenderJob);
  get_render_result : string -> Timed string;
  writeFileSync : string -> option string
}.

(** ** A state and exception monad over [World] *)

Definition M (A : Type) : Type := World -> Res A * World.

Definition ret {A} (a : A) : M A := fun w => (Ok a, w).

Definition throw {A} (msg : string) : M A := fun w => (Throw msg, w).

Definition bind {A B} (m : M A) (k : A -> M B) : M B :=
  fun w =>
    match m w with
    | (Ok a, w') => k a w'
    | (Throw msg, w') => (Throw msg, w')
    end.

(** [try { m } catch (error) { h(error.message) }] *)
Definition try_catch {A} (m : M A) (h : string -> M A) : M A :=
  fun w =>
    match m w with
    | (Ok a, w') => (Ok a, w')
    | (Throw msg, w') => h msg w'
    end.

Declare Scope lifecycle_scope.
Delimit Scope lifecycle_scope with lifecycle.
Notation "x <- m ;; k" := (bind m (fun x => k))
  (at level 100, m at next level, right associativity) : lifecycle_scope.
Notation "m ;; k" := (bind m (fun _ => k))
  (at level 100, right associativity) : lifecycle_scope.
Local Open Scope lifecycle_scope.

Definition emit (e : Event) : M unit :=
  fun w => (Ok tt, {| now := now w; log := log w ++ [e];
                      fileStatuses := fileStatuses w |}).

Definition advance (dt : Z) : M unit :=
  fun w => (Ok tt, {| now := (now w + dt)%Z; log := log w;
                      fileStatuses := fileStatuses w |}).

Definition Date_now : M Z := fun w => (Ok (now w), w).

Definition lift {A} (r : Res A) : M A := fun w => (r, w).

(** [await] of a request: time passes, then it settles. *)
Definition await {A} (t : Timed A) : M A :=
  advance (took t) ;; lift (outcome t).

(** [setTimeout(resolve, ms)]: Node clamps a delay below 1 or above
    [2^31 - 1] to 1. *)
Definition sleep (ms : Z) : M unit :=
  emit (EvSleep ms) ;;
  advance (if (ms <? 1)%Z || (2147483647 <? ms)%Z then 1%Z else ms).

(** ** String helpers of the runtime *)

(** [s.endsWith(suffix)] *)
Definition endsWith (s suffix : string) : bool :=
  String.prefix (String.string_of_list_ascii (rev (String.list_ascii_of_string suffix)))
                (String.string_of_list_ascii (rev (String.list_ascii_of_string s))).

(** Splits a reversed name at its last dot: the reversed extension and
    the reversed stem. *)
Fixpoint take_ext (r : list Ascii.ascii)
    : option (list Ascii.ascii * list Ascii.ascii) :=
  match r with
  | [] => None
  | c :: r' =>
      if Ascii.eqb c "."%char then Some ([], r')
      else match take_ext r' with
           | Some (e, stem) => Some (c :: e, stem)
           | None => None
           end
  end.

(** [name.replace(/\.[^.]+$/, ext)]: the last dot and the non-empty run
    of non-dot characters after it, up to the end, become [ext]. *)
Definition replace_extension (name ext : string) : string :=
  match take_ext (rev (String.list_ascii_of_string name)) with
  | Some (_ :: _, stem) => String.string_of_list_ascii (rev stem) +:+ ext
  | _ => name
  end.

(** The text of [${x}] for an optional string. *)
Definition template (x : option string) : string :=
  match x with Some m => m | None => "undefined" end.

(** ** [SolanaPayment.sendPayment] ([utils/solana.ts]) *)

Definition Solana_sendPayment (keypair : option string) (remote : Remote)
    (toWallet : string) (amountSOL : float) (memo_ : string) : M string :=
  emit (EvSendPayment toWallet amountSOL memo_) ;;
  match keypair with
  | None => throw "Private key required for sending payments"
  | Some _ =>
      (* new PublicKey(toWallet) *)
      if negb (validAddress remote toWallet)
      then throw "Invalid public key input"
      else
        let lamports :=
          Math_round (amountSOL * Solana.LAMPORTS_PER_SOL)%float in
        (* new Transaction().add(SystemProgram.transfer({ .., lamports })) *)
        match SystemProgram_transfer remote lamports with
        | Some msg => throw msg
        | None =>
            let memo_instruction :=
              if truthy (Some memo_) then Some memo_ else None in
            emit (EvSendTransaction toWallet lamports memo_instruction) ;;
            await (sendAndConfirmTransaction remote toWallet lamports
                                             memo_instruction)
        end
  end.

(** ** [RaymentClient] *)

Section RaymentClient.

Variable config : RaymentClientConfig.
Variable remote : Remote.

(** [requestRender({ filePath, settings, providerId })]; the settings
    and the provider id only travel in the form. *)
Definition requestRender (filePath : string) : M PaymentRequired :=
  let wallet' :=
    if truthy (wallet config) then wallet config else solana config in
  match wallet' with
  | None => throw "Wallet address required"
  | Some w =>
      if negb (truthy (Some w)) then throw "Wallet address required"
      else
        emit (EvPostRender filePath w) ;;
        let '(dt, resp) := post_render remote filePath w in
        advance dt ;;
        match resp with
        | Resp2xx => throw "Expected 402 response"
        | Resp402 payment => ret payment
        | RespError msg => throw msg
        end
  end.

Definition payForRender (payment : PaymentRequired) : M string :=
  match solana config with
  | None => throw "Private key required for payments"
  | Some keypair =>
      txSignature <- Solana_sendPayment (Some keypair) remote
                       (payTo payment) (price payment) (memo payment) ;;
      (* Confirm payment with hub *)
      emit (EvPostPay (pay_jobId payment) txSignature) ;;
      res <- await (post_render_pay remote (pay_jobId payment)
                                    txSignature) ;;
      if negb (success res)
      then throw (str_or (ack_error res) "Payment confirmation failed")
      else ret (pay_jobId payment)
  end.

(** [getJobStatus(jobId)], given the answer the hub has for this
    request, if any. *)
Definition getJobStatus (answer : option (Timed RenderJob))
    (jobId_ : string) : M RenderJob :=
  emit (EvGetStatus jobId_) ;;
  match answer with
  | Some t => await t
  | None => throw "Network Error"
  end.

(** One turn of the [while (true)] loop of [waitForCompletion]:
    [Some job] is [return job], [None] is the next turn. *)
Definition pollOnce (answer : option (Timed RenderJob)) (jobId_ : string)
    (pollInterval timeout startTime : Z)
    (onProgress : option (RenderJob -> M unit)) : M (option RenderJob) :=
  job <- getJobStatus answer jobId_ ;;
  match onProgress with Some cb => cb job | None => ret tt end ;;
  if JobStatus_eqb (job_status job) job_completed then ret (Some job)
  else if JobStatus_eqb (job_status job) job_failed
  then throw ("Render failed: " +:+ template (job_error job))
  else
    t <- Date_now ;;
    if (timeout <? t - startTime)%Z
    then throw "Timeout waiting for render"
    else sleep pollInterval ;; ret None.

(** The loop, one turn per answer of the hub; past the last answer
    the poll is rejected. *)
Fixpoint waitLoop (answers : list (Timed RenderJob)) (jobId_ : string)
    (pollInterval timeout startTime : Z)
    (onProgress : option (RenderJob -> M unit)) : M RenderJob :=
  match answers with
  | [] => getJobStatus None jobId_
  | a :: rest =>
      r <- pollOnce (Some a) jobId_ pollInterval timeout startTime
                    onProgress ;;
      match r with
      | Some job => ret job
      | None =>
          waitLoop rest jobId_ pollInterval timeout startTime onProgress
      end
  end.

Definition waitForCompletion (jobId_ : string)
    (pollInterval timeout : option Z)
    (onProgress : option (RenderJob -> M unit)) : M RenderJob :=
  let pollInterval' := int_or pollInterval 2000 in
  let timeout' := int_or timeout 600000 in (* 10 minutes *)
  startTime <- Date_now ;;
  waitLoop (get_render remote) jobId_ pollInterval' timeout' startTime
           onProgress.

Definition downloadResult (jobId_ outputPath_ : string) : M string :=
  emit (EvGetResult jobId_) ;;
  _data <- await (get_render_result remote jobId_) ;;
  let finalPath :=
    if endsWith outputPath_ ".png" then outputPath_
    else outputPath_ +:+ ".png" in
  emit (EvWriteFile finalPath) ;;
  match writeFileSync remote finalPath with
  | Some msg => throw msg
  | None => ret finalPath
  end.

End RaymentClient.

(** The world after the polls answered by [pre], when each of them lets
    the loop of [waitForCompletion] go round again; [None] when one of
    them ends it. *)
Fixpoint keep_polling (pre : list (Timed RenderJob)) (jobId_ : string)
    (pollInterval timeout startTime : Z)
    (onProgress : option (RenderJob -> M unit)) (w : World) : option World :=
  match pre with
  | [] => Some w
  | a :: pre' =>
      match pollOnce (Some a) jobId_ pollInterval timeout startTime
                     onProgress w with
      | (Ok None, w') =>
          keep_polling pre' jobId_ pollInterval timeout startTime
                       onProgress w'
      | _ => None
      end
  end.


(** ** [estimateCost] *)

Record Provider := {
  provider_id : string;
  pricing : Solana.ProviderPricing
}.

Section EstimateCost.

Local Open Scope float_scope.

(** [getProvider(id)] and [getProviders('online')] are requests to the
    hub. *)
Variable getProvider : string -> Res Provider.
Variable getProviders_online : Res (list Provider).

Definition estimateCost (fileSizeMb : float) (frameCount : option float)
    (providerId : option string)
    : Res (Provider * Solana.PriceBreakdown) :=
  let chosen :=
    if truthy providerId
    then getProvider (template providerId)
    else match getProviders_online with
         | Throw msg => Throw msg
         | Ok [] => Throw "No providers available"
         | Ok (p :: _) => Ok p
         end in
  match chosen with
  | Throw msg => Throw msg
  | Ok provider =>
      let frameCount' := num_or frameCount 1 in
      let estimatedSeconds := 60 in (* Rough estimate *)
      let fileSizeFee' :=
        (fileSizeMb / 1024) * Solana.pricePerGb (pricing provider) in
      let frameFee' :=
        frameCount' * Solana.pricePerFrame (pricing provider) in
      let estimatedRenderFee' :=
        estimatedSeconds * Solana.pricePerSecond (pricing provider) in
      let subtotal := fileSizeFee' + frameFee' + estimatedRenderFee' in
      let basePrice' :=
        Math_max subtotal (Solana.minimumPrice (pricing provider)) in
      let platformFee' := basePrice' * 0.05 in
      let total' := basePrice' + platformFee' in
      Ok (provider,
          {| Solana.basePrice := basePrice';
             Solana.fileSizeFee := fileSizeFee';
             Solana.frameFee := frameFee';
             Solana.estimatedRenderFee := estimatedRenderFee';
             Solana.platformFee := platformFee';
             Solana.total := total' |})
  end.

End EstimateCost.

(** ** [renderBatch] *)

(** [settings] and [providerId] are left out: they are only copied into
    the upload form.  A listener is either supplied or not; a listener
    that is supplied is taken to return normally, and what it is told is
    in the log. *)
Record BatchRenderOptions := {
  files : list string;
  outputDir : string;
  concurrency : option Z;       (* default 3 *)
  stopOnError : option bool;    (* default false *)
  onFileProgress : bool;
  onBatchProgress : bool
}.

(** A completion chosen by the outside while [renderBatch] is suspended
    at [await Promise.race(..)]: the job lifecycle at position
    [which mod n] of the [n] lifecycles in flight settles at time
    [at_time], and [linger] tells that one more settles before the
    suspended loop is resumed. *)
Record Pick := { which : nat; linger : bool; at_time : Z }.

(** The outside of one [renderBatch] call. [remote_of p] is what the
    [p]-th started lifecycle meets. *)
Record BatchEnv := {
  outputDirExists : bool;
  mkdirSync : option string;      (* the message, when it throws *)
  startTime : Z;                  (* Date.now() on entry *)
  endTime : Z;                    (* Date.now() after the loop *)
  remote_of : nat -> Remote
}.

(** Where the body of [renderBatch] stands. *)
Inductive Pc :=
| PcOuter                       (* at the test of the outer [while] *)
| PcInner                       (* at the test of the inner [while] *)
| PcAwait (raced : list nat) (settled : bool)
                                (* suspended at [await Promise.race(raced)] *)
| PcDone.                       (* past the loop *)

(** The local state of [renderBatch].  [inflight] lists the started
    [processFile(file).then(..)] promises whose callback has not run yet,
    by number and file; [activePromises] is the [Map] of the source. *)
Record Cfg := {
  pc : Pc;
  queue : list string;
  activePromises : gmap string nat;
  inflight : list (nat * string);
  successful_so_far : list BatchFileResult;
  failed_so_far : list BatchFileResult;
  nextPromise : nat;
  progress : list BatchProgress;    (* what [onBatchProgress] was told *)
  picks : list Pick
}.

(** [results.reduce((sum, r) => sum + (r.cost || 0), 0)] *)
Definition sum_cost (rs : list BatchFileResult) : float :=
  foldl (fun sum r => (sum + num_or (cost r) 0)%float) 0%float rs.

Section Batch.

(** [path.basename] and [path.join] of Node. *)
Variable path_basename : string -> string.
Variable path_join : string -> string -> string.

Variable config : RaymentClientConfig.
Variable options : BatchRenderOptions.
Variable env : BatchEnv.

Definition concurrency' : Z :=
  match concurrency options with Some n => n | None => 3%Z end.

Definition stopOnError' : bool :=
  match stopOnError options with Some b => b | None => false end.

Definition updateFileStatus (file_ : string) (update : StatusUpdate)
    : M unit :=
  fun w =>
    let current :=
      match fileStatuses w !! file_ with
      | Some st => st
      | None => pending_status file_
      end in
    let updated := merge current update in
    (Ok tt,
     {| now := now w;
        log := if onFileProgress options
               then log w ++ [EvFileProgress file_ updated] else log w;
        fileStatuses := <[file_ := updated]> (fileStatuses w) |}).

Definition with_status (st : FileState) : StatusUpdate :=
  {| u_status := Some st; u_progress := None; u_error := None;
     u_jobId := None; u_cost := None; u_renderTime := None;
     u_outputPath := None |}.

(** [{ status: 'paying', jobId: payment.jobId, cost: payment.price }] *)
Definition paying (payment : PaymentRequired) : StatusUpdate :=
  {| u_status := Some st_paying; u_progress := None; u_error := None;
     u_jobId := Some (pay_jobId payment); u_cost := Some (price payment);
     u_renderTime := None; u_outputPath := None |}.

(** [{ status: 'completed', outputPath: resultPath,
       renderTime: job.renderTime }] *)
Definition completed_with (resultPath : string) (job : RenderJob)
    : StatusUpdate :=
  {| u_status := Some st_completed; u_progress := None; u_error := None;
     u_jobId := None; u_cost := None;
     u_renderTime := Some (job_renderTime job);
     u_outputPath := Some resultPath |}.

(** [{ status: 'failed', error: error.message }] *)
Definition failed_with (msg : string) : StatusUpdate :=
  {| u_status := Some st_failed; u_progress := None; u_error := Some msg;
     u_jobId := None; u_cost := None; u_renderTime := None;
     u_outputPath := None |}.

(** The result of a job that threw. *)
Definition failure (filePath msg : string) : BatchFileResult :=
  {| file := filePath; outputPath := None; jobId := None; cost := None;
     renderTime := None; error := Some msg |}.

(** The [onProgress] listener that [processFile] hands to
    [waitForCompletion]. *)
Definition onRenderProgress (filePath : string) (j : RenderJob) : M unit :=
  updateFileStatus filePath
    {| u_status := Some st_rendering;
       u_progress :=
         Some (if JobStatus_eqb (job_status j) job_rendering
               then Some 50%Z else None);
       u_error := None; u_jobId := None; u_cost := None;
       u_renderTime := None; u_outputPath := None |}.

(** Process a single file *)
Definition processFile (remote : Remote) (filePath : string)
    : M BatchFileResult :=
  let fileName := path_basename filePath in
  let outputFileName := replace_extension fileName ".png" in
  let outputPath_ := path_join (outputDir options) outputFileName in
  try_catch
    (if negb (existsSync remote filePath)
     then throw ("File not found: " +:+ filePath)
     else
       (* Step 1: Request render *)
       (updateFileStatus filePath (with_status st_uploading) ;;
        payment <- requestRender config remote filePath ;;
        (* Step 2: Pay for render *)
        updateFileStatus filePath (paying payment) ;;
        jobId_ <- payForRender config remote payment ;;
        (* Step 3: Wait for completion *)
        updateFileStatus filePath (with_status st_rendering) ;;
        job <- waitForCompletion remote jobId_ None None
                 (Some (onRenderProgress filePath)) ;;
        (* Step 4: Download result *)
        updateFileStatus filePath (with_status st_downloading) ;;
        resultPath <- downloadResult remote jobId_ outputPath_ ;;
        (* Success *)
        let result :=
          {| file := filePath; outputPath := Some resultPath;
             jobId := Some jobId_; cost := Some (price payment);
             renderTime := job_renderTime job; error := None |} in
        updateFileStatus filePath (completed_with resultPath job) ;;
        ret result))
    (fun msg =>
       let result := failure filePath msg in
       updateFileStatus filePath (failed_with msg) ;;
       ret result).

(** Initialize file statuses *)
Definition initial_statuses : gmap string BatchFileStatus :=
  foldl (fun m f => <[f := pending_status f]> m) ∅ (files options).

(** The world a lifecycle starts in. *)
Definition initial_world : World :=
  {| now := startTime env; log := []; fileStatuses := initial_statuses |}.

(** The run of the [p]-th started lifecycle, and the value its
    promise is fulfilled with. *)
Definition lifecycle (p : nat) (file_ : string)
    : Res BatchFileResult * World :=
  processFile (remote_of env p) file_ initial_world.

Definition fulfilled_with (p : nat) (file_ : string) : BatchFileResult :=
  match fst (lifecycle p file_) with
  | Ok result => result
  | Throw msg =>
      (* a rejection; [processFile] has none *)
      failure file_ msg
  end.

(** Helper to update batch progress *)
Definition updateBatchProgress (t : Z) (c : Cfg) : list BatchProgress :=
  if onBatchProgress options
  then
    progress c ++
    [ {| bp_total := length (files options);
         bp_completed := length (successful_so_far c);
         bp_failed := length (failed_so_far c);
         bp_inProgress :=
           (Z.of_nat (length (files options))
            - Z.of_nat (length (successful_so_far c))
            - Z.of_nat (length (failed_so_far c)))%Z;
         bp_totalCost := sum_cost (successful_so_far c);
         bp_elapsedTime := (of_Z (t - startTime env) / 1000)%float |} ]
  else progress c.

Definition goto (l : Pc) (c : Cfg) : Cfg :=
  {| pc := l; queue := queue c; activePromises := activePromises c;
     inflight := inflight c; successful_so_far := successful_so_far c;
     failed_so_far := failed_so_far c; nextPromise := nextPromise c;
     progress := progress c; picks := picks c |}.

(** One turn of the inner [while]: [queue.shift()], the call of
    [processFile] and [activePromises.set]. *)
Definition start (file_ : string) (rest : list string) (c : Cfg) : Cfg :=
  {| pc := PcInner; queue := rest;
     activePromises := <[file_ := nextPromise c]> (activePromises c);
     inflight := inflight c ++ [(nextPromise c, file_)];
     successful_so_far := successful_so_far c;
     failed_so_far := failed_so_far c;
     nextPromise := S (nextPromise c);
     progress := progress c; picks := picks c |}.

(** The [.then((result) => ..)] callback of the promise at position
    [i] of [inflight], run at time [t]. *)
Definition settle (i : nat) (p : nat) (file_ : string) (t : Z) (c : Cfg)
    : Cfg :=
  let result := fulfilled_with p file_ in
  let pushed :=
    if truthy (error result)
    then
      {| pc := pc c;
         queue := if stopOnError' then [] else queue c;
         activePromises := activePromises c;
         inflight := inflight c;
         successful_so_far := successful_so_far c;
         failed_so_far := failed_so_far c ++ [result];
         nextPromise := nextPromise c;
         progress := progress c; picks := picks c |}
    else
      {| pc := pc c; queue := queue c;
         activePromises := activePromises c;
         inflight := inflight c;
         successful_so_far := successful_so_far c ++ [result];
         failed_so_far := failed_so_far c;
         nextPromise := nextPromise c;
         progress := progress c; picks := picks c |} in
  {| pc := pc pushed; queue := queue pushed;
     activePromises := delete file_ (activePromises pushed);
     inflight := delete i (inflight pushed);
     successful_so_far := successful_so_far pushed;
     failed_so_far := failed_so_far pushed;
     nextPromise := nextPromise pushed;
     progress := updateBatchProgress t pushed; picks := picks pushed |}.

Definition next_pick (c : Cfg) : Pick :=
  match picks c with
  | pk :: _ => pk
  | [] => {| which := 0; linger := false; at_time := endTime env |}
  end.

Definition drop_pick (c : Cfg) : Cfg :=
  {| pc := pc c; queue := queue c; activePromises := activePromises c;
     inflight := inflight c; successful_so_far := successful_so_far c;
     failed_so_far := failed_so_far c; nextPromise := nextPromise c;
     progress := progress c; picks := tail (picks c) |}.

(** [Promise.race(activePromises.values())] *)
Definition raced_promises (c : Cfg) : list nat :=
  (map_to_list (activePromises c)).*2.

(** One step of [renderBatch]'s loop, or of the outside while the loop
    is suspended. *)
Definition step (c : Cfg) : Cfg :=
  match pc c with
  | PcDone => c
  | PcOuter =>
      (* while (queue.length > 0 || activePromises.size > 0) *)
      if (0 <? length (queue c)) || (0 <? size (activePromises c))
      then goto PcInner c else goto PcDone c
  | PcInner =>
      (* while (queue.length > 0 && activePromises.size < concurrency) *)
      match queue c with
      | file_ :: rest =>
          if (Z.of_nat (size (activePromises c)) <? concurrency')%Z
          then start file_ rest c
          else
            (* if (activePromises.size > 0) await Promise.race(..) *)
            if 0 <? size (activePromises c)
            then goto (PcAwait (raced_promises c) false) c
            else goto PcOuter c
      | [] =>
          if 0 <? size (activePromises c)
          then goto (PcAwait (raced_promises c) false) c
          else goto PcOuter c
      end
  | PcAwait raced settled =>
      let pk := next_pick c in
      let i := which pk mod length (inflight c) in
      match inflight c !! i with
      | Some (p, file_) =>
          let settled' := settled || bool_decide (p ∈ raced) in
          let c' := settle i p file_ (at_time pk) (drop_pick c) in
          if settled' && negb (linger pk)
          then goto PcOuter c'
          else goto (PcAwait raced settled') c'
      | None =>
          (* nothing in flight: resume if the race is settled, else
             the race never settles *)
          if settled then goto PcOuter c else c
      end
  end.

Definition run (fuel : nat) (c : Cfg) : Cfg := Nat.iter fuel step c.

Definition initial (schedule : list Pick) : Cfg :=
  {| pc := PcOuter; queue := files options; activePromises := ∅;
     inflight := []; successful_so_far := []; failed_so_far := [];
     nextPromise := 0; progress := []; picks := schedule |}.

(** Calculate stats.  The value of the result at the moment of the
    return: its [successful] and [failed] are the arrays of the loop as
    they stand then (see [read_later] for what they hold afterwards). *)
Definition batch_result (c : Cfg) : BatchRenderResult :=
  let successful' := successful_so_far c in
  let totalTime' := (of_Z (endTime env - startTime env) / 1000)%float in
  let totalCost' := sum_cost successful' in
  let completedRenderTimes := omap renderTime successful' in
  let avgRenderTime' :=
    if 0 <? length completedRenderTimes
    then (foldl PrimFloat.add 0 completedRenderTimes
          / of_Z (Z.of_nat (length completedRenderTimes)))%float
    else 0%float in
  {| successful := successful';
     failed := failed_so_far c;
     totalCost := totalCost';
     totalTime := totalTime';
     stats :=
       {| stats_total := length (files options);
          stats_completed := length successful';
          stats_failed := length (failed_so_far c);
          avgRenderTime := avgRenderTime';
          avgCost :=
            if 0 <? length successful'
            then (totalCost'
                  / of_Z (Z.of_nat (length successful')))%float
            else 0%float |} |}.

(** [renderBatch(options)], observed after [fuel] steps: [None] while
    the call has neither returned nor thrown. *)
Definition renderBatch (schedule : list Pick) (fuel : nat)
    : option (Res BatchRenderResult) :=
  (* Validate inputs *)
  if length (files options) =? 0
  then Some (Throw "No files provided for batch rendering")
  else
    (* Ensure output directory exists *)
    match (if outputDirExists env then None else mkdirSync env) with
    | Some msg => Some (Throw msg)
    | None =>
        let c := run fuel (initial schedule) in
        match pc c with
        | PcDone => Some (Ok (batch_result c))
        | _ => None
        end
    end.

(** ** After the return

    The result holds the arrays [successful] and [failed] themselves,
    not copies.  A lifecycle that is still in flight when [renderBatch]
    returns settles later, and its callback pushes to these arrays,
    deletes from the map and tells the batch listener as before. *)

(** The next lifecycle in flight settles. *)
Definition settle_next (c : Cfg) : Cfg :=
  let pk := next_pick c in
  let i := which pk mod length (inflight c) in
  match inflight c !! i with
  | Some (p, file_) => settle i p file_ (at_time pk) (drop_pick c)
  | None => c
  end.

Definition later (n : nat) (c : Cfg) : Cfg := Nat.iter n settle_next c.

(** The result that was returned in state [c], as its holder reads it
    once [n] more lifecycles have settled: the arrays are the live ones,
    the figures are those computed at the return. *)
Definition read_later (n : nat) (c : Cfg) : BatchRenderResult :=
  let r := batch_result c in
  {| successful := successful_so_far (later n c);
     failed := failed_so_far (later n c);
     totalCost := totalCost r;
     totalTime := totalTime r;
     stats := stats r |}.

End Batch.

(** ** [render]: the complete flow for one file *)

(** The literal of a [JobStatus]. *)
Definition JobStatus_toString (st : JobStatus) : string :=
  match st with
  | job_pending_payment => "pending_payment"
  | job_paid => "paid"
  | job_queued => "queued"
  | job_rendering => "rendering"
  | job_completed => "completed"
  | job_failed => "failed"
  | job_cancelled => "cancelled"
  end.

Record RenderOutcome := {
  out_job : RenderJob;
  out_resultPath : string;
  out_cost : float
}.

Section Render.

(** The text JavaScript prints for a number inside a template string. *)
Variable Number_toString : float -> string.

Variable config : RaymentClientConfig.
Variable remote : Remote.

(** [onProgress?.(status, job)] *)
Definition tell (onProgress : option (string -> option RenderJob -> M unit))
    (status : string) (job : option RenderJob) : M unit :=
  match onProgress with
  | Some cb => cb status job
  | None => ret tt
  end.

(** Complete render flow: request -> pay -> wait -> download *)
Definition render (filePath outputPath_ : string)
    (onProgress : option (string -> option RenderJob -> M unit))
    : M RenderOutcome :=
  (* Step 1: Request render *)
  tell onProgress "Requesting render..." None ;;
  payment <- requestRender config remote filePath ;;
  tell onProgress ("Price: " +:+ Number_toString (price payment) +:+ " SOL")
       None ;;
  (* Step 2: Pay *)
  tell onProgress "Processing payment..." None ;;
  jobId_ <- payForRender config remote payment ;;
  (* Step 3: Wait for completion *)
  job <- waitForCompletion remote jobId_ None None
           (Some (fun j =>
              tell onProgress
                   ("Status: " +:+ JobStatus_toString (job_status j))
                   (Some j))) ;;
  (* Step 4: Download result *)
  tell onProgress "Downloading result..." None ;;
  resultPath <- downloadResult remote jobId_ outputPath_ ;;
  tell onProgress "Done!" None ;;
  ret {| out_job := job; out_resultPath := resultPath;
         out_cost := price payment |}.

End Render.

(** ** [renderBatchSimple] *)



(** ** Reading a log *)

Definition is_transfer (e : Event) : bool :=
  match e with EvSendTransaction _ _ _ => true | _ => false end.

Definition is_confirmation (e : Event) : bool :=
  match e with EvPostPay _ _ => true | _ => false end.


Definition is_poll (e : Event) : bool :=
  match e with EvGetStatus _ => true | _ => false end.

Definition is_write (e : Event) : bool :=
  match e with EvWriteFile _ => true | _ => false end.

(** How many events of a kind a log holds. *)
Definition count (kind : Event -> bool) (l : list Event) : nat :=
  length (List.filter kind l).

End Client.

(* ================================================================== *)
(** * Concrete inputs *)
(* ================================================================== *)

Module Scenario.

Import Client.

(** The same quote with another expiry time, and the same world at
    another time. *)
Definition with_expiresAt (e : Z) (p : PaymentRequired) : PaymentRequired :=
  {| pay_jobId := pay_jobId p; price := price p; breakdown := breakdown p;
     payTo := payTo p; expiresAt := e; memo := memo p |}.

Definition with_now (t : Z) (w : World) : World :=
  {| now := t; log := log w; fileStatuses := fileStatuses w |}.

(** The tariff and the job of the pricing scenario: 100 MB, one frame,
    sixty seconds, 5% platform fee. *)
Definition tariff : Solana.ProviderPricing :=
  {| Solana.pricePerFrame := 0.001; Solana.pricePerSecond := 0.0001;
     Solana.pricePerGb := 0.01; Solana.minimumPrice := 0.005 |}%float.

Definition job : Solana.JobInfo :=
  {| Solana.fileSizeMb := 100; Solana.frameCount := 1;
     Solana.estimatedRenderSeconds := 60 |}%float.



(** A tariff of 1 SOL per gigabyte and nothing else, and a scene of
    992 MB: 0.96875 GB. *)
Definition gigabyte_tariff : Solana.ProviderPricing :=
  {| Solana.pricePerFrame := 0; Solana.pricePerSecond := 0;
     Solana.pricePerGb := 1; Solana.minimumPrice := 0 |}%float.

Definition large_scene : Solana.JobInfo :=
  {| Solana.fileSizeMb := 992; Solana.frameCount := 1;
     Solana.estimatedRenderSeconds := 60 |}%float.

Definition gigabyte_provider : Provider :=
  {| provider_id := "provider-2"; pricing := gigabyte_tariff |}.

(** A provider with the scenario's tariff, and what [estimateCost]
    says of 100 MB and one frame when it is the only one online. *)
Definition provider : Provider :=
  {| provider_id := "provider-1"; pricing := tariff |}.

Definition estimate : Solana.PriceBreakdown :=
  match estimateCost (fun _ => Throw "unused") (Ok [provider]) 100%float
                     (Some 1%float) None with
  | Ok (_, b) => b
  | Throw _ => Solana.calculatePrice tariff job None
  end.

(** A confirmed transfer that credits ["provider"] with 999 900 000
    lamports (0.9999 SOL), and the node that knows it as ["sig"]. *)
Definition transfer : Solana.ConfirmedTx :=
  {| Solana.meta :=
       Some {| Solana.err := None;
               Solana.postBalances := [5000000000; 1999900000]%float;
               Solana.preBalances := [6000000000; 1000000000]%float |};
     Solana.staticAccountKeys := ["client"; "provider"] |}.

Definition node (txSignature : string) : Res (option Solana.ConfirmedTx) :=
  if String.eqb txSignature "sig" then Ok (Some transfer) else Ok None.

Definition print_number (x : float) : string := "n".



(** The transfer of the quoted 0.008375 SOL: 8 375 000 lamports to
    ["provider"], known to the node as ["tx-1"]. *)
Definition quoted_transfer : Solana.ConfirmedTx :=
  {| Solana.meta :=
       Some {| Solana.err := None;
               Solana.postBalances := [5991620000; 1008375000]%float;
               Solana.preBalances := [6000000000; 1000000000]%float |};
     Solana.staticAccountKeys := ["client-pubkey"; "provider"] |}.

Definition chain (txSignature : string) : Res (option Solana.ConfirmedTx) :=
  if String.eqb txSignature "tx-1" then Ok (Some quoted_transfer)
  else Ok None.

(** A client with a private key, and one without. *)
Definition funded : RaymentClientConfig :=
  {| wallet := None; solana := Some "client-pubkey" |}.

Definition keyless : RaymentClientConfig :=
  {| wallet := Some "client-wallet"; solana := None |}.

(** A quote that expired at time 1000. *)
Definition quote : PaymentRequired :=
  {| pay_jobId := "job-1"; price := 0.008375%float;
     breakdown := Solana.calculatePrice tariff job None;
     payTo := "provider"; expiresAt := 1000; memo := "rayment:job-1" |}.

Definition rendered (st : JobStatus) : RenderJob :=
  {| job_id := "job-1"; job_status := st; job_renderTime := Some 12%float;
     job_error := None |}.

Definition answer {A} (ms : Z) (r : Res A) : Timed A :=
  {| took := ms; outcome := r |}.

(** A library that encodes the lamports of a transfer as an unsigned
    64-bit integer, and throws for any other number. *)
Definition encode_u64 (lamports : float) : option string :=
  if (0 <=? lamports)%float && (lamports <? 18446744073709551616)%float
     && (Math_round lamports =? lamports)%float
  then None
  else Some "Invalid lamports".

(** A hub where everything works: the job renders during the first poll
    and is complete at the second. *)
Definition hub : Remote :=
  {| existsSync := fun _ => true;
     post_render := fun _ _ => (10%Z, Resp402 quote);
     validAddress := fun _ => true;
     SystemProgram_transfer := encode_u64;
     sendAndConfirmTransaction := fun _ _ _ => answer 400 (Ok "tx-1");
     post_render_pay :=
       fun _ _ => answer 10 (Ok {| success := true; ack_error := None |});
     get_render := [answer 10 (Ok (rendered job_rendering));
                    answer 10 (Ok (rendered job_completed))];
     get_render_result := fun _ => answer 50 (Ok "png-bytes");
     writeFileSync := fun _ => None |}.

Definition with_polls (polls : list (Timed RenderJob)) (r : Remote) : Remote :=
  {| existsSync := existsSync r; post_render := post_render r;
     validAddress := validAddress r;
     SystemProgram_transfer := SystemProgram_transfer r;
     sendAndConfirmTransaction := sendAndConfirmTransaction r;
     post_render_pay := post_render_pay r;
     get_render := polls;
     get_render_result := get_render_result r;
     writeFileSync := writeFileSync r |}.

(** The first status poll hits a connection reset; a second poll would
    have found the job complete. *)
Definition flaky_hub : Remote :=
  with_polls [answer 10 (Throw "read ECONNRESET");
              answer 10 (Ok (rendered job_completed))] hub.

(** The job is seen rendering, then a poll hits the reset. *)
Definition late_flaky_hub : Remote :=
  with_polls [answer 10 (Ok (rendered job_rendering));
              answer 10 (Throw "read ECONNRESET");
              answer 10 (Ok (rendered job_completed))] hub.


(** The job completes, and the download of its result fails with an
    error whose message is empty. *)
Definition hub_silent_failure : Remote :=
  {| existsSync := existsSync hub; post_render := post_render hub;
     validAddress := validAddress hub;
     SystemProgram_transfer := SystemProgram_transfer hub;
     sendAndConfirmTransaction := sendAndConfirmTransaction hub;
     post_render_pay := post_render_pay hub;
     get_render := [answer 10 (Ok (rendered job_completed))];
     get_render_result := fun _ => answer 50 (Throw "");
     writeFileSync := writeFileSync hub |}.

(** The job is seen rendering, then the hub reports that it failed. *)
Definition failing_hub : Remote :=
  with_polls
    [answer 10 (Ok (rendered job_rendering));
     answer 10 (Ok {| job_id := "job-1"; job_status := job_failed;
                      job_renderTime := None;
                      job_error := Some "GPU out of memory" |})] hub.

(** The hub does not see the payment and refuses the confirmation. *)
Definition refusing_hub : Remote :=
  {| existsSync := existsSync hub; post_render := post_render hub;
     validAddress := validAddress hub;
     SystemProgram_transfer := SystemProgram_transfer hub;
     sendAndConfirmTransaction := sendAndConfirmTransaction hub;
     post_render_pay :=
       fun _ _ => answer 10 (Ok {| success := false;
                                   ack_error := Some "Payment not found" |});
     get_render := get_render hub;
     get_render_result := get_render_result hub;
     writeFileSync := writeFileSync hub |}.

(** The input file is not on disk. *)
Definition hub_missing_file : Remote :=
  {| existsSync := fun _ => false; post_render := post_render hub;
     validAddress := validAddress hub;
     SystemProgram_transfer := SystemProgram_transfer hub;
     sendAndConfirmTransaction := sendAndConfirmTransaction hub;
     post_render_pay := post_render_pay hub;
     get_render := get_render hub;
     get_render_result := get_render_result hub;
     writeFileSync := writeFileSync hub |}.

Definition world_at (t : Z) : World :=
  {| now := t; log := []; fileStatuses := ∅ |}.

(** Batches. *)
Definition basename (p : string) : string := p.
Definition join (dir name : string) : string := dir +:+ "/" +:+ name.

Definition batch (fs : list string) (n : Z) (stop : bool)
    : BatchRenderOptions :=
  {| files := fs; outputDir := "out"; concurrency := Some n;
     stopOnError := Some stop; onFileProgress := true;
     onBatchProgress := true |}.

Definition outside (remotes : nat -> Remote) : BatchEnv :=
  {| outputDirExists := true; mkdirSync := None; startTime := 0;
     endTime := 9000; remote_of := remotes |}.

End Scenario.

(* ================================================================== *)
(** * The invariant of the scheduling loop *)
(* ================================================================== *)

Module Invariant.

Import Client.

Definition swap (x : nat * string) : string * nat := (x.2, x.1).



Section WithOptions.

Variable options : BatchRenderOptions.

(** What holds of every state of [renderBatch] on a list of distinct
    files:
    - [activePromises] holds exactly the promises in flight, under
      their files;
    - the files in flight and in the queue are distinct;
    - the first [k] files have been started, each of them is in
      flight or has its result in one of the two lists, and the queue
      holds the other files unless a failure has emptied it;
    - no more than [concurrency] lifecycles are in flight;
    - a result is in [failed] when its error is truthy and in
      [successful] otherwise. *)
Record batch_inv (c : Cfg) : Prop := {
  inv_map : map_to_list (activePromises c) ≡ₚ swap <$> inflight c;
  inv_nodup : NoDup ((inflight c).*2 ++ queue c);
  inv_started :
    ∃ k,
      take k (files options)
        ≡ₚ (file <$> successful_so_far c)
           ++ (file <$> failed_so_far c) ++ (inflight c).*2
      ∧ (queue c = drop k (files options)
         ∨ (stopOnError' options = true ∧ queue c = []
            ∧ failed_so_far c ≠ []));
  inv_bound :
    (Z.of_nat (length (inflight c)) ≤ Z.max 0 (concurrency' options))%Z;
  inv_pc :
    match pc c with
    | PcOuter => True
    | PcInner => queue c ≠ [] ∨ inflight c ≠ []
    | PcAwait raced settled =>
        settled = false → raced ≡ₚ (inflight c).*1 ∧ inflight c ≠ []
    | PcDone => queue c = [] ∧ inflight c = []
    end;
  inv_failed :
    Forall (λ r, truthy (error r) = true) (failed_so_far c);
  inv_successful :
    Forall (λ r, truthy (error r) = false) (successful_so_far c)
}.

End WithOptions.

Section WithBatch.

Variable path_basename : string -> string.
Variable path_join : string -> string -> string.
Variable config : RaymentClientConfig.
Variable options : BatchRenderOptions.
Variable env : BatchEnv.

(** The result of the lifecycle of an input file, by its rank among the
    started lifecycles. *)
Definition genuine (r : BatchFileResult) : Prop :=
  exists p f,
    files options !! p = Some f /\
    r = fulfilled_with path_basename path_join config options env p f.

(** A progress report that shows the counts of a state. *)
Definition shows (c : Cfg) (report : BatchProgress) : Prop :=
  bp_total report = length (files options) /\
  bp_completed report = length (successful_so_far c) /\
  bp_failed report = length (failed_so_far c) /\
  bp_inProgress report
  = (Z.of_nat (length (files options))
     - Z.of_nat (length (successful_so_far c))
     - Z.of_nat (length (failed_so_far c)))%Z.

(** What holds of every state of [renderBatch] on any list of files:
    - lifecycles are started in the order of the list, the [p]-th for
      the [p]-th file, and the queue holds the files not yet started
      unless it has been emptied;
    - every result is that of a started lifecycle, with an error in
      the list of failures and without one in the other;
    - a started lifecycle is in flight or has its result in one of the
      two lists, and no more lifecycles are started than there are
      files;
    - with [stopOnError], the queue is empty once a failure is recorded;
    - the batch listener, when there is one, has been told once per
      result, and its last report shows the current counts. *)
Record tally_inv (c : Cfg) : Prop := {
  tal_queue :
    queue c = drop (nextPromise c) (files options) \/ queue c = [];
  tal_inflight :
    Forall (fun x => files options !! x.1 = Some x.2) (inflight c);
  tal_successful :
    Forall (fun r => genuine r /\ truthy (error r) = false)
           (successful_so_far c);
  tal_failed :
    Forall (fun r => genuine r /\ truthy (error r) = true)
           (failed_so_far c);
  tal_count :
    length (successful_so_far c) + length (failed_so_far c)
    + length (inflight c) = nextPromise c;
  tal_total : nextPromise c + length (queue c) <= length (files options);
  tal_stop :
    stopOnError' options = true -> failed_so_far c <> [] -> queue c = [];
  tal_progress :
    if onBatchProgress options
    then length (progress c)
         = length (successful_so_far c) + length (failed_so_far c) /\
         (forall report, last (progress c) = Some report -> shows c report)
    else progress c = []
}.

End WithBatch.

End Invariant.

(* ================================================================== *)
(** * Relating runs of the lifecycle *)
(* ================================================================== *)

Module Frames.

Import Client.

(** [m] appends to the log, and what it appends holds at most [n]
    transfers. *)
Definition spends {A} (n : nat) (m : M A) : Prop :=
  forall w, exists evs,
    log (snd (m w)) = log w ++ evs /\ count is_transfer evs <= n.





End Frames.
(* ================================================================== *)
(** * Facts about numbers *)
(* ================================================================== *)

Module NumberFacts.

Local Open Scope float_scope.

Lemma SFcompare_antisym (a b : spec_float) :
  SFcompare b a = CompOpp <$> SFcompare a b.
Proof.
  destruct a as [sa|sa| |sa ma ea], b as [sb|sb| |sb mb eb]; cbn;
    try reflexivity;
    repeat match goal with s : bool |- _ => destruct s end;
    try reflexivity.
  - rewrite (Z.compare_antisym ea eb).
    destruct (ea ?= eb)%Z; cbn; try reflexivity.
    change (Pos.compare_cont Eq mb ma) with (Pos.compare mb ma).
    change (Pos.compare_cont Eq ma mb) with (Pos.compare ma mb).
    now rewrite (Pos.compare_antisym ma mb), CompOpp_involutive.
  - rewrite (Z.compare_antisym ea eb).
    destruct (ea ?= eb)%Z; cbn; try reflexivity.
    change (Pos.compare_cont Eq mb ma) with (Pos.compare mb ma).
    change (Pos.compare_cont Eq ma mb) with (Pos.compare ma mb).
    f_equal. apply (Pos.compare_antisym ma mb).
Qed.

Lemma SFcompare_nan (a b : spec_float) :
  SFcompare a b = None <-> a = S754_nan \/ b = S754_nan.
Proof.
  destruct a as [sa|sa| |sa ma ea], b as [sb|sb| |sb mb eb]; cbn;
    split; try discriminate; try tauto; intros [H|H]; discriminate.
Qed.

Lemma Prim2SF_nan (x : float) : Prim2SF x = S754_nan <-> is_nan x = true.
Proof.
  unfold Prim2SF. destruct (is_nan x); [easy|].
  split; [|discriminate].
  destruct (is_zero x); [discriminate|].
  destruct (is_infinity x); [discriminate|].
  destruct (Z.frexp x) as [r e]. destruct (shr_fexp _ _ _ _ _) as [shr e'].
  destruct (shr_m shr); discriminate.
Qed.

(** A comparison that holds is one between numbers. *)
Lemma ltb_numbers (x y : float) :
  (x <? y) = true -> is_nan x = false /\ is_nan y = false.
Proof.
  rewrite ltb_spec. unfold SFltb. intros H.
  destruct (SFcompare (Prim2SF x) (Prim2SF y)) as [c|] eqn:E; [|discriminate].
  split; apply not_true_is_false; intros N; apply Prim2SF_nan in N;
    assert (SFcompare (Prim2SF x) (Prim2SF y) = None)
      by (apply SFcompare_nan; auto); congruence.
Qed.

(** Every comparison with [NaN] is false. *)
Lemma ltb_nan_l (y : float) : (nan <? y) = false.
Proof. rewrite ltb_spec. reflexivity. Qed.

Lemma ltb_nan_r (x : float) : (x <? nan) = false.
Proof.
  rewrite ltb_spec. unfold SFltb.
  replace (SFcompare (Prim2SF x) (Prim2SF nan)) with (@None comparison);
    [reflexivity|].
  symmetry. apply SFcompare_nan. now right.
Qed.

Lemma ltb_irrefl (x : float) : (x <? x) = false.
Proof.
  rewrite ltb_spec. unfold SFltb.
  pose proof (SFcompare_antisym (Prim2SF x) (Prim2SF x)) as A.
  destruct (SFcompare (Prim2SF x) (Prim2SF x)) as [[]|]; try reflexivity.
  discriminate A.
Qed.

Lemma ltb_asym (x y : float) : (x <? y) = true -> (y <? x) = false.
Proof.
  rewrite !ltb_spec. unfold SFltb. rewrite (SFcompare_antisym (Prim2SF x)).
  now destruct (SFcompare (Prim2SF x) (Prim2SF y)) as [[]|].
Qed.


(** ** [Math.max] *)


Lemma Math_max_gt (x y : float) : (y <? x) = true -> Math_max x y = x.
Proof.
  intros H. unfold Math_max. destruct (ltb_numbers y x H) as [-> ->].
  cbn [orb]. rewrite (ltb_asym y x H). now rewrite H.
Qed.



Lemma Math_max_ge_l (x y : float) : (Math_max x y <? x) = false.
Proof.
  unfold Math_max. destruct (is_nan x || is_nan y); [apply ltb_nan_l|].
  destruct (x <? y) eqn:H1; [now apply ltb_asym|].
  destruct (y <? x) eqn:H2; [apply ltb_irrefl|].
  destruct (is_zero x && get_sign x); [exact H2|apply ltb_irrefl].
Qed.

(** ** [Math.round] *)

(** On a number [v * 2^e] that has binary places, [Math.round] yields
    the integer [n] with [n - 1/2 <= v * 2^e < n + 1/2]. *)
Lemma Math_round_nearest (x : float) (s : bool) (m : positive) (e : Z) :
  Prim2SF x = S754_finite s m e -> (e < 0)%Z ->
  exists n : Z,
    Math_round x = signed_of_Z s n /\
    let v := if s then Z.neg m else Z.pos m in
    ((2 * n - 1) * 2 ^ (- e) <= 2 * v < (2 * n + 1) * 2 ^ (- e))%Z.
Proof.
  intros Hx He. unfold Math_round. rewrite Hx.
  destruct (Z.leb_spec 0 e) as [H|_]; [lia|].
  eexists. split; [reflexivity|]. cbn zeta.
  set (v := if s then Z.neg m else Z.pos m).
  assert (Hd : (0 < 2 ^ (- e))%Z) by (apply Z.pow_pos_nonneg; lia).
  replace (1 - e)%Z with (Z.succ (- e)) by lia.
  rewrite Z.pow_succ_r by lia.
  set (d := (2 ^ (- e))%Z) in *.
  pose proof (Z.div_mod (2 * v + d) (2 * d) ltac:(lia)) as Hdm.
  pose proof (Z.mod_pos_bound (2 * v + d) (2 * d) ltac:(lia)) as Hb.
  set (n := ((2 * v + d) / (2 * d))%Z) in *.
  nia.
Qed.

(** A number without binary places, a zero, an infinity and [NaN] are
    left as they are. *)
Lemma Math_round_integral (x : float) :
  match Prim2SF x with
  | S754_finite _ _ e => (0 <= e)%Z
  | _ => True
  end ->
  Math_round x = x.
Proof.
  unfold Math_round. destruct (Prim2SF x) as [| | |s m e]; try reflexivity.
  intros H. now destruct (Z.leb_spec 0 e) as [_|H']; [|lia].
Qed.

End NumberFacts.

(* ================================================================== *)
(** * Properties of the price calculation and of payment verification *)
(* ================================================================== *)

Module SolanaSpec.

Import Solana NumberFacts.
Local Open Scope float_scope.

(** C5, as amended. For every tariff, job and fee percentage,
    [calculatePrice] returns the three fees as computed and the platform
    fee as base price times fee rate, all unrounded, and the base price
    as the larger of the sum of the fees and the tariff's minimum.  The
    total is the sum of base price and platform fee, rounded to six
    decimal places, the only rounding: the sum is multiplied by 10^6,
    [Math.round] is applied and the result is divided by 10^6; when the
    scaled sum [v * 2^e] has binary places, the total is [n / 10^6] for
    the integer [n] with [n - 1/2 <= v * 2^e < n + 1/2], and otherwise
    the total is the scaled sum divided by 10^6.  All operations are
    those of binary64 numbers.  [estimateCost] does not round: its total
    is the sum of its base price and its platform fee. *)
Theorem calculatePrice_rounds_total_only
    (pricing : ProviderPricing) (jobInfo : JobInfo)
    (platformFeePercent : option float) :
  let r := calculatePrice pricing jobInfo platformFeePercent in
  let scaled := (basePrice r + platformFee r) * 1000000 in
  fileSizeFee r = fileSizeMb jobInfo / 1024 * pricePerGb pricing /\
  frameFee r = frameCount jobInfo * pricePerFrame pricing /\
  estimatedRenderFee r
    = estimatedRenderSeconds jobInfo * pricePerSecond pricing /\
  basePrice r
    = Math_max (fileSizeFee r + frameFee r + estimatedRenderFee r)
               (minimumPrice pricing) /\
  platformFee r
    = basePrice r
      * (match platformFeePercent with Some p => p | None => 5 end / 100) /\
  total r = Math_round scaled / 1000000 /\
  (forall s m e,
     Prim2SF scaled = S754_finite s m e -> (e < 0)%Z ->
     exists n : Z,
       total r = signed_of_Z s n / 1000000 /\
       let v := if s then Z.neg m else Z.pos m in
       ((2 * n - 1) * 2 ^ (- e) <= 2 * v < (2 * n + 1) * 2 ^ (- e))%Z) /\
  (match Prim2SF scaled with
   | S754_finite _ _ e => (0 <= e)%Z
   | _ => True
   end ->
   total r = scaled / 1000000) /\
  (forall getProvider getProviders_online size frames providerId provider b,
     Client.estimateCost getProvider getProviders_online size frames
                         providerId = Ok (provider, b) ->
     total b = basePrice b + platformFee b).
Proof.
  cbn zeta. unfold calculatePrice, round6.
  cbn [fileSizeFee frameFee estimatedRenderFee basePrice platformFee total].
  repeat split; try reflexivity.
  - intros s m e Hx He.
    destruct (Math_round_nearest _ s m e Hx He) as (n & -> & Hn).
    now exists n.
  - intros Hx. now rewrite Math_round_integral.
  - intros getProvider getProviders_online size frames providerId provider b.
    unfold Client.estimateCost.
    destruct (if truthy providerId then _ else _) as [p|msg];
      [|discriminate].
    now intros [= <- <-].
Qed.

(** C5, as stated, fails.  For 992 MB at 1 SOL per gigabyte and the
    default 5% the base price is 0.96875 and the code's total is
    1.017187, where base price times 1.05, rounded to six places, is
    1.017188; and [estimateCost], for the same provider and file,
    returns the total 1.0171875, which is not rounded at all. *)
Lemma calculatePrice_total_is_not_the_rounded_product :
  let r := calculatePrice Scenario.gigabyte_tariff Scenario.large_scene
                          None in
  basePrice r = 0.96875 /\
  platformFee r = 0.0484375 /\
  total r = 1.017187 /\
  round6 (basePrice r * (1 + feeRate None)) = 1.017188 /\
  exists b,
    Client.estimateCost (fun _ => Throw "unused")
                        (Ok [Scenario.gigabyte_provider]) 992 None None
    = Ok (Scenario.gigabyte_provider, b) /\
    total b = 1.0171875 /\
    round6 (total b) = 1.017187.
Proof.
  cbn zeta. do 4 (split; [vm_compute; reflexivity|]).
  eexists. split; [vm_compute; reflexivity|].
  split; vm_compute; reflexivity.
Qed.




(** C7, as amended. At the scenario the fees are 0.0009765625, 0.001 and
    0.006; their sum 0.0079765625 is above the minimum and is the base
    price; the platform fee is 0.000398828125 and the total, rounded to
    six places, is 0.008375. *)
Theorem calculatePrice_scenario :
  let r := calculatePrice Scenario.tariff Scenario.job (Some 5) in
  fileSizeFee r = 0.0009765625 /\
  frameFee r = 0.001 /\
  estimatedRenderFee r = 0.006 /\
  subtotal r = 0.0079765625 /\
  (minimumPrice Scenario.tariff <? subtotal r) = true /\
  basePrice r = 0.0079765625 /\
  platformFee r = 0.000398828125 /\
  total r = 0.008375.
Proof. repeat split; vm_compute; reflexivity. Qed.

(** C7, as stated, fails in its last two figures: the total is not
    0.008376, and the platform fee is 0.0003988 to seven places, not
    0.0003989. *)
Lemma calculatePrice_scenario_total_not_8376 :
  let r := calculatePrice Scenario.tariff Scenario.job (Some 5) in
  total r <> 0.008376 /\
  (total r =? 0.008376) = false /\
  (platformFee r <? 0.0003989 - 0.00000005) = true /\
  (abs (platformFee r - 0.0003988) <=? 0.00000005) = true.
Proof.
  cbn zeta. split; [|repeat split; vm_compute; reflexivity].
  intros H.
  assert (E : (total (calculatePrice Scenario.tariff Scenario.job (Some 5))
               =? 0.008376) = false) by (vm_compute; reflexivity).
  rewrite H in E. vm_compute in E. discriminate E.
Qed.

(** Each approximate figure of the scenario that does hold, to the
    number of places it is given with. *)
Lemma calculatePrice_scenario_approx :
  let r := calculatePrice Scenario.tariff Scenario.job (Some 5) in
  (abs (fileSizeMb Scenario.job / 1024 - 0.0977) <=? 0.00005) = true /\
  (abs (fileSizeFee r - 0.000977) <=? 0.0000005) = true /\
  (abs (subtotal r - 0.007977) <=? 0.0000005) = true /\
  (abs (basePrice r - 0.007977) <=? 0.0000005) = true.
Proof. repeat split; vm_compute; reflexivity. Qed.

(** [estimateCost] on the scenario's provider computes the same fees
    with its fixed sixty seconds and 5%, and leaves the total unrounded. *)
Lemma estimateCost_scenario (getProvider : string -> Res Client.Provider) :
  let p := {| Client.provider_id := "p"; Client.pricing := Scenario.tariff |} in
  exists b,
    Client.estimateCost getProvider (Ok [p]) 100 (Some 1) None = Ok (p, b) /\
    basePrice b = 0.0079765625 /\
    platformFee b = 0.000398828125 /\
    total b = 0.008375390625.
Proof.
  eexists. split; [reflexivity|]. repeat split; vm_compute; reflexivity.
Qed.

(** ** [verifyPayment] *)

Lemma findIndex_from_found {A} (p : A -> bool) (l : list A) (i : Z) :
  (0 <= i)%Z -> (exists x, In x l /\ p x = true) ->
  findIndex_from p l i <> (-1)%Z.
Proof.
  revert i. induction l as [|y l IH]; intros i Hi (x & Hin & Hp).
  - destruct Hin.
  - cbn [findIndex_from]. destruct (p y) eqn:Ey; [lia|].
    apply IH; [lia|]. destruct Hin as [-> | Hin]; [congruence|eauto].
Qed.

Lemma findIndex_from_missing {A} (p : A -> bool) (l : list A) (i : Z) :
  (forall x, In x l -> p x = false) -> findIndex_from p l i = (-1)%Z.
Proof.
  revert i. induction l as [|y l IH]; intros i H; [reflexivity|].
  cbn [findIndex_from]. rewrite (H y (or_introl eq_refl)).
  apply IH. intros x Hx. apply H. now right.
Qed.




(** The memo plays no part in the answer. *)
Lemma verifyPayment_ignores_memo
    (Number_toString : float -> string)
    (getTransaction : string -> Res (option ConfirmedTx))
    (txSignature expectedTo : string) (expectedAmountSOL : float)
    (memo1 memo2 : option string) :
  verifyPayment Number_toString getTransaction txSignature expectedTo
                expectedAmountSOL memo1
  = verifyPayment Number_toString getTransaction txSignature expectedTo
                  expectedAmountSOL memo2.
Proof. reflexivity. Qed.

(** One lamport less than the tolerance allows is refused. *)
Lemma verifyPayment_rejects_below_tolerance :
  valid (verifyPayment Scenario.print_number Scenario.node "sig" "provider"
                       1.000000001 None) = false.
Proof. vm_compute. reflexivity. Qed.

End SolanaSpec.

(* ================================================================== *)
(** * Properties of one job lifecycle *)
(* ================================================================== *)

Module LifecycleSpec.

Import Client Scenario.
Local Open Scope lifecycle_scope.


(** Unfolds the monad on the goal. *)
Ltac step_through :=
  unfold bind, emit, throw, await, advance, lift, ret, Date_now; cbn.

(** Closes a goal that equates two outcomes up to clock arithmetic. *)
Ltac shifted :=
  unfold with_now; cbn; f_equal; f_equal; lia.

(** C1, as stated, fails: at time 2000 the quote that expired at 1000
    is paid; [sendPayment] is called, the transfer is submitted and the
    job id is returned. *)
Lemma payForRender_pays_expired_quote :
  (expiresAt Scenario.quote < now (Scenario.world_at 2000))%Z /\
  fst (payForRender Scenario.funded Scenario.hub Scenario.quote
                    (Scenario.world_at 2000)) = Ok "job-1" /\
  log (snd (payForRender Scenario.funded Scenario.hub Scenario.quote
                         (Scenario.world_at 2000)))
  = [EvSendPayment "provider" 0.008375%float "rayment:job-1";
     EvSendTransaction "provider" 8375000%float (Some "rayment:job-1");
     EvPostPay "job-1" "tx-1"].
Proof. repeat split; vm_compute; reflexivity. Qed.

(** The run of [payForRender] does not depend on the clock it starts
    at, except for the clock it ends at. *)
Lemma payForRender_clock (config : RaymentClientConfig) (remote : Remote)
    (payment : PaymentRequired) (w : World) (t : Z) :
  payForRender config remote payment (with_now t w)
  = (fst (payForRender config remote payment w),
     with_now (now (snd (payForRender config remote payment w)) - now w + t)
              (snd (payForRender config remote payment w))).
Proof.
  unfold payForRender, Solana_sendPayment.
  destruct (solana config) as [kp|]; step_through; [|shifted].
  destruct (validAddress remote (payTo payment)); step_through; [|shifted].
  destruct (SystemProgram_transfer remote _) as [msg|]; step_through;
    [shifted|].
  destruct (outcome (sendAndConfirmTransaction remote _ _ _)) as [sig|msg];
    step_through; [|shifted].
  destruct (outcome (post_render_pay remote _ sig)) as [ack|msg];
    step_through; [|shifted].
  destruct (success ack); step_through; shifted.
Qed.

(** C1, as amended. [payForRender] reads neither [expiresAt] nor the
    clock: its outcome and the calls it makes are the same for every
    expiry time of the quote and every time of the call.  Its one check
    before paying is that a private key is configured: with one, the
    first thing it does is call [sendPayment(payTo, price, memo)];
    without one, it throws and calls nothing. *)
Theorem payForRender_never_checks_expiry
    (config : RaymentClientConfig) (remote : Remote)
    (payment : PaymentRequired) (w : World) (e t : Z) :
  let r := payForRender config remote payment w in
  let r' := payForRender config remote (with_expiresAt e payment)
                         (with_now t w) in
  fst r' = fst r /\
  log (snd r') = log (snd r) /\
  (solana config <> None ->
   exists rest,
     log (snd r)
     = log w ++ EvSendPayment (payTo payment) (price payment) (memo payment)
             :: rest) /\
  (solana config = None ->
   r = (Throw "Private key required for payments", w)).
Proof.
  cbn zeta.
  assert (E : payForRender config remote (with_expiresAt e payment)
              = payForRender config remote payment) by reflexivity.
  rewrite E, payForRender_clock. cbn [fst snd with_now log].
  repeat split.
  - intros Hkey. unfold payForRender, Solana_sendPayment.
    destruct (solana config) as [kp|]; [|contradiction]. clear Hkey.
    step_through.
    destruct (validAddress remote (payTo payment)); cbn; [|now eexists].
    destruct (SystemProgram_transfer remote _) as [msg|]; cbn;
      [now eexists|].
    destruct (outcome (sendAndConfirmTransaction remote _ _ _)) as [sig|msg];
      cbn.
    2:{ rewrite <- app_assoc. now eexists. }
    destruct (outcome (post_render_pay remote _ sig)) as [ack|msg]; cbn.
    2:{ rewrite <- !app_assoc. now eexists. }
    destruct (success ack); cbn; rewrite <- !app_assoc; now eexists.
  - intros Hkey. unfold payForRender. now rewrite Hkey.
Qed.

(** ** Polling *)

(** A poll that is rejected ends the loop with its error, after that one
    request. *)
Lemma pollOnce_rejected (bad : Timed RenderJob) (msg jobId_ : string)
    (pollInterval timeout startTime : Z)
    (onProgress : option (RenderJob -> M unit)) (w : World) :
  outcome bad = Throw msg ->
  pollOnce (Some bad) jobId_ pollInterval timeout startTime onProgress w
  = (Throw msg,
     {| now := now w + took bad; log := log w ++ [EvGetStatus jobId_];
        fileStatuses := fileStatuses w |}).
Proof.
  intros Hbad. unfold pollOnce, getJobStatus. step_through.
  now rewrite Hbad.
Qed.

Lemma waitLoop_after_pending (pre rest : list (Timed RenderJob))
    (jobId_ : string) (pollInterval timeout startTime : Z)
    (onProgress : option (RenderJob -> M unit)) (w w1 : World) :
  keep_polling pre jobId_ pollInterval timeout startTime onProgress w
  = Some w1 ->
  waitLoop (pre ++ rest) jobId_ pollInterval timeout startTime onProgress w
  = waitLoop rest jobId_ pollInterval timeout startTime onProgress w1.
Proof.
  revert w. induction pre as [|a pre IH]; intros w Hpre;
    cbn [keep_polling] in Hpre.
  - now inversion Hpre.
  - cbn [app waitLoop]. unfold bind at 1.
    destruct (pollOnce (Some a) jobId_ pollInterval timeout startTime
                       onProgress w) as [[[job|]|msg] w'];
      try discriminate.
    now apply IH.
Qed.

(** [waitForCompletion] only returns a job that it saw completed. *)
Lemma waitLoop_returns_completed (answers : list (Timed RenderJob))
    (jobId_ : string) (pollInterval timeout startTime : Z)
    (onProgress : option (RenderJob -> M unit)) (w w' : World)
    (job : RenderJob) :
  waitLoop answers jobId_ pollInterval timeout startTime onProgress w
  = (Ok job, w') ->
  job_status job = job_completed.
Proof.
  revert w. induction answers as [|a rest IH]; intros w H.
  - cbn in H. unfold getJobStatus in H. step_through. discriminate.
  - cbn [waitLoop] in H. unfold bind at 1 in H.
    destruct (pollOnce (Some a) jobId_ pollInterval timeout startTime
                       onProgress w) as [[[j|]|msg] w1] eqn:E;
      [| now apply IH in H | discriminate].
    unfold ret in H. inversion H; subst j w1; clear H.
    unfold pollOnce, bind in E.
    destruct (getJobStatus (Some a) jobId_ w) as [[j|m] w2]; [|discriminate].
    destruct (match onProgress with Some cb => cb j | None => ret () end w2)
      as [[[]|m] w3]; [|discriminate].
    destruct (job_status j) eqn:Es; cbn in E;
      try (destruct (timeout <? _)%Z; cbn in E; discriminate);
      try discriminate.
    unfold ret in E. now inversion E; subst.
Qed.


(** C9, as amended. A status poll that fails is not retried: when the
    polls before it left the job pending, [waitForCompletion] throws the
    error of the failed poll at once, having made that one request and
    no other, whatever the hub would have answered next. *)
Theorem waitForCompletion_poll_error_not_retried
    (remote : Remote) (jobId_ : string) (pollInterval timeout : option Z)
    (onProgress : option (RenderJob -> M unit))
    (pre rest : list (Timed RenderJob)) (bad : Timed RenderJob)
    (msg : string) (w w1 : World) :
  get_render remote = pre ++ bad :: rest ->
  keep_polling pre jobId_ (int_or pollInterval 2000)
               (int_or timeout 600000) (now w) onProgress w = Some w1 ->
  outcome bad = Throw msg ->
  waitForCompletion remote jobId_ pollInterval timeout onProgress w
  = (Throw msg,
     {| now := now w1 + took bad; log := log w1 ++ [EvGetStatus jobId_];
        fileStatuses := fileStatuses w1 |}).
Proof.
  intros Hpolls Hpre Hbad. unfold waitForCompletion.
  unfold bind at 1, Date_now. rewrite Hpolls.
  rewrite (waitLoop_after_pending _ _ _ _ _ _ _ _ _ Hpre).
  cbn [waitLoop]. unfold bind at 1.
  now rewrite (pollOnce_rejected _ _ _ _ _ _ _ _ Hbad).
Qed.

(** After one poll that saw the job rendering, the connection reset of
    the second poll ends the wait: two requests, the second not
    repeated. *)
Lemma waitForCompletion_poll_error_not_retried_witness :
  waitForCompletion late_flaky_hub "job-1" None None None (world_at 0)
  = (Throw "read ECONNRESET",
     {| now := 2020;
        log := [EvGetStatus "job-1"; EvSleep 2000] ++ [EvGetStatus "job-1"];
        fileStatuses := ∅ |}).
Proof.
  apply (waitForCompletion_poll_error_not_retried late_flaky_hub "job-1"
           None None None
           [answer 10 (Ok (rendered job_rendering))]
           [answer 10 (Ok (rendered job_completed))]
           (answer 10 (Throw "read ECONNRESET")) "read ECONNRESET"
           (world_at 0)
           {| now := 2010; log := [EvGetStatus "job-1"; EvSleep 2000];
              fileStatuses := ∅ |}).
  - reflexivity.
  - reflexivity.
  - reflexivity.
Defined.

(** C9, as stated, fails: one connection reset on the first poll ends
    the wait with that error after a single request, although the next
    poll would have found the job complete; in a batch the file fails
    with the message of the reset. *)
Lemma waitForCompletion_gives_up_on_first_poll_error :
  waitForCompletion flaky_hub "job-1" None None None (world_at 0)
  = (Throw "read ECONNRESET",
     {| now := 10; log := [EvGetStatus "job-1"]; fileStatuses := ∅ |}) /\
  fst (lifecycle basename join funded (batch ["scene.blend"] 1 false)
                 (outside (fun _ => flaky_hub)) 0 "scene.blend")
  = Ok (failure "scene.blend" "read ECONNRESET") /\
  "read ECONNRESET" <> "status check exhausted retries".
Proof. repeat split. discriminate. Qed.

(** ** Download after completion *)

Lemma updateFileStatus_ok (options : BatchRenderOptions) (file_ : string)
    (update : StatusUpdate) (w : World) :
  updateFileStatus options file_ update w
  = (Ok (), snd (updateFileStatus options file_ update w)).
Proof. reflexivity. Qed.





(** A download error with an empty message: the file's status ends as
    ['failed'], and the batch counts the file as rendered, with a result
    that has no output path. *)
Lemma processFile_empty_error_counts_as_success :
  let o := batch ["castle.blend"] 1 false in
  let e := outside (fun _ => hub_silent_failure) in
  fst (lifecycle basename join funded o e 0 "castle.blend")
  = Ok (failure "castle.blend" "") /\
  fs_status <$> (fileStatuses (snd (lifecycle basename join funded o e 0
                                              "castle.blend"))
                 !! "castle.blend") = Some st_failed /\
  exists r,
    renderBatch basename join funded o e [] 40 = Some (Ok r) /\
    successful r = [failure "castle.blend" ""] /\
    failed r = [] /\
    stats_completed (stats r) = 1.
Proof.
  cbn zeta. split; [vm_compute; reflexivity|].
  split; [vm_compute; reflexivity|].
  eexists. split; [vm_compute; reflexivity|]. now repeat split.
Qed.

End LifecycleSpec.

(* ================================================================== *)
(** * Properties of the batch scheduler *)
(* ================================================================== *)

Module BatchSpec.

Import Client Scenario Invariant.
Local Open Scope lifecycle_scope.

Section Scheduler.

Variable path_basename : string -> string.
Variable path_join : string -> string -> string.
Variable config : RaymentClientConfig.
Variable options : BatchRenderOptions.
Variable env : BatchEnv.

Local Abbreviation step := (step path_basename path_join config options env).
Local Abbreviation run := (run path_basename path_join config options env).
Local Abbreviation settle := (settle path_basename path_join config options env).
Local Abbreviation fulfilled_with :=
  (fulfilled_with path_basename path_join config options env).
Local Abbreviation inv := (batch_inv options).

(** [processFile] never rejects, and its result names its file. *)
Lemma processFile_fulfils (remote : Remote) (filePath : string) (w : World) :
  ∃ r w',
    processFile path_basename path_join config options remote filePath w
    = (Ok r, w') ∧ file r = filePath.
Proof.
  unfold processFile, try_catch.
  match goal with
  | |- context [match ?body w with _ => _ end] =>
      destruct (body w) as [[r|msg] w1] eqn:E
  end.
  - exists r, w1. split; [reflexivity|].
    destruct (existsSync remote filePath); cbn [negb] in E;
      [|discriminate].
    unfold bind in E. rewrite LifecycleSpec.updateFileStatus_ok in E.
    destruct (requestRender _ _ _ _) as [[payment|m] w2]; [|discriminate].
    rewrite LifecycleSpec.updateFileStatus_ok in E.
    destruct (payForRender _ _ _ _) as [[jobId_|m] w3]; [|discriminate].
    rewrite LifecycleSpec.updateFileStatus_ok in E.
    destruct (waitForCompletion _ _ _ _ _ _) as [[job|m] w4];
      [|discriminate].
    rewrite LifecycleSpec.updateFileStatus_ok in E.
    destruct (downloadResult _ _ _ _) as [[resultPath|m] w5];
      [|discriminate].
    rewrite LifecycleSpec.updateFileStatus_ok in E.
    unfold ret in E. now inversion E.
  - eexists _, _. split; [reflexivity|]. reflexivity.
Qed.

Lemma file_fulfilled_with (p : nat) (file_ : string) :
  file (fulfilled_with p file_) = file_.
Proof.
  unfold Client.fulfilled_with, lifecycle.
  destruct (processFile_fulfils (remote_of env p) file_
              (initial_world options env)) as (r & w' & E & Hfile).
  now rewrite E.
Qed.

(** ** The invariant is kept *)

Lemma size_active (c : Cfg) :
  inv c -> size (activePromises c) = length (inflight c).
Proof.
  intros I. rewrite <- length_map_to_list, (inv_map _ _ I).
  apply length_fmap.
Qed.

Lemma swap_snd (l : list (nat * string)) : (swap <$> l).*1 = l.*2.
Proof. induction l as [|[p f] l IH]; cbn; congruence. Qed.

Lemma swap_fst (l : list (nat * string)) : (swap <$> l).*2 = l.*1.
Proof. induction l as [|[p f] l IH]; cbn; congruence. Qed.

(** A file that is still queued has no entry in [activePromises]. *)
Lemma queued_not_active (c : Cfg) (file_ : string) (rest : list string) :
  inv c -> queue c = file_ :: rest -> activePromises c !! file_ = None.
Proof.
  intros I Hq. destruct (activePromises c !! file_) as [p|] eqn:E;
    [exfalso|reflexivity].
  apply elem_of_map_to_list in E. rewrite (inv_map _ _ I) in E.
  apply (list_elem_of_fmap_2 fst) in E. rewrite swap_snd in E. cbn in E.
  pose proof (inv_nodup _ _ I) as N. rewrite Hq in N.
  apply NoDup_app in N as (_ & N & _). apply (N file_ E). left.
Qed.

(** A lifecycle in flight is in [activePromises] under its file. *)
Lemma inflight_active (c : Cfg) (i p : nat) (file_ : string) :
  inv c -> inflight c !! i = Some (p, file_) ->
  activePromises c !! file_ = Some p.
Proof.
  intros I Hi. apply elem_of_map_to_list. rewrite (inv_map _ _ I).
  apply (list_elem_of_fmap_2 swap (inflight c) (p, file_)).
  eapply list_elem_of_lookup_2, Hi.
Qed.

Lemma inv_goto (l : Pc) (c : Cfg) :
  inv c ->
  match l with
  | PcOuter => True
  | PcInner => queue c ≠ [] ∨ inflight c ≠ []
  | PcAwait raced settled =>
      settled = false → raced ≡ₚ (inflight c).*1 ∧ inflight c ≠ []
  | PcDone => queue c = [] ∧ inflight c = []
  end ->
  inv (goto l c).
Proof.
  intros [] Hl. constructor; cbn; assumption.
Qed.

Lemma start_inv (c : Cfg) (file_ : string) (rest : list string) :
  inv c -> queue c = file_ :: rest ->
  (Z.of_nat (size (activePromises c)) < concurrency' options)%Z ->
  inv (start file_ rest c).
Proof.
  intros I Hq Hlt. pose proof (size_active c I) as Hsize.
  pose proof (queued_not_active c file_ rest I Hq) as Hnone.
  destruct I as [Imap Inodup (k & Hk & Hqueue) Ibound Ipc Ifail Isucc].
  constructor; cbn.
  - rewrite (map_to_list_insert _ _ _ Hnone), Imap, fmap_app. cbn.
    unfold swap at 3. cbn. apply Permutation_cons_append.
  - rewrite Hq in Inodup. rewrite fmap_app, <- app_assoc. exact Inodup.
  - destruct Hqueue as [Hdrop | (_ & Hnil & _)]; [|congruence].
    rewrite Hq in Hdrop.
    assert (Hlook : files options !! k = Some file_).
    { pose proof (lookup_drop (files options) k 0) as L.
      rewrite <- Hdrop, Nat.add_0_r in L. now rewrite <- L. }
    exists (S k). split.
    + rewrite (take_S_r _ _ _ Hlook), Hk, fmap_app, !app_assoc.
      reflexivity.
    + left. rewrite (drop_S _ _ _ Hlook) in Hdrop. congruence.
  - rewrite length_app. cbn. lia.
  - right. now destruct (inflight c).
  - assumption.
  - assumption.
Qed.

(** What the callback of a settled promise changes. *)
Lemma settle_fields (i p : nat) (file_ : string) (t : Z) (c : Cfg) :
  let r := fulfilled_with p file_ in
  let c' := settle i p file_ t c in
  activePromises c' = delete file_ (activePromises c) ∧
  inflight c' = delete i (inflight c) ∧
  pc c' = pc c ∧
  ((truthy (error r) = true ∧
    failed_so_far c' = failed_so_far c ++ [r] ∧
    successful_so_far c' = successful_so_far c ∧
    queue c' = if stopOnError' options then [] else queue c)
   ∨ (truthy (error r) = false ∧
      successful_so_far c' = successful_so_far c ++ [r] ∧
      failed_so_far c' = failed_so_far c ∧
      queue c' = queue c)).
Proof.
  cbn zeta. unfold Client.settle.
  destruct (truthy (error (fulfilled_with p file_))); cbn; auto 10.
Qed.

Lemma settle_inv (i p : nat) (file_ : string) (t : Z) (c : Cfg) :
  inv c -> inflight c !! i = Some (p, file_) ->
  inv (goto PcOuter (settle i p file_ t (drop_pick c))).
Proof.
  intros I Hi. pose proof (inflight_active c i p file_ I Hi) as Hact.
  pose proof (delete_Permutation _ _ _ Hi) as Hperm.
  pose proof (file_fulfilled_with p file_) as Hfile.
  destruct (settle_fields i p file_ t (drop_pick c))
    as (Ea & Ei & _ & Hcase).
  set (c' := settle i p file_ t (drop_pick c)) in *.
  set (r := fulfilled_with p file_) in *.
  cbn [drop_pick activePromises inflight queue successful_so_far
       failed_so_far] in Ea, Ei, Hcase.
  destruct I as [Imap Inodup (k & Hk & Hqueue) Ibound Ipc Ifail Isucc].
  assert (Hsub : (delete i (inflight c)).*2 `sublist_of` (inflight c).*2)
    by (apply fmap_sublist, sublist_delete).
  assert (Hfiles : (inflight c).*2 ≡ₚ file_ :: (delete i (inflight c)).*2)
    by (now rewrite Hperm at 1).
  constructor; cbn [goto pc queue activePromises inflight successful_so_far
                    failed_so_far]; fold c'.
  - rewrite Ea, Ei. apply (Permutation_cons_inv (a := (file_, p))).
    rewrite (map_to_list_delete _ _ _ Hact), Imap.
    now rewrite Hperm at 1.
  - rewrite Ei.
    assert (Hq : queue c' `sublist_of` queue c).
    { destruct Hcase as [(_ & _ & _ & Eq) | (_ & _ & _ & Eq)]; rewrite Eq;
        [destruct (stopOnError' options)|]; [apply sublist_nil_l|done|done]. }
    eapply sublist_NoDup; [exact Inodup|]. now apply sublist_app.
  - exists k. rewrite Ei.
    destruct Hcase as [(Ht & Ef & Es & Eq) | (Ht & Es & Ef & Eq)];
      rewrite Ef, Es, Eq.
    + split.
      * rewrite Hk, Hfiles, fmap_app. cbn. rewrite Hfile.
        now rewrite <- (app_assoc _ [file_]).
      * destruct (stopOnError' options) eqn:Estop.
        -- right. repeat split. now destruct (failed_so_far c).
        -- destruct Hqueue as [Hd | (Habs & _)]; [now left|congruence].
    + split.
      * rewrite Hk, Hfiles, fmap_app. cbn. rewrite Hfile.
        rewrite <- (app_assoc _ [file_]). apply Permutation_app_head. cbn.
        symmetry. apply Permutation_middle.
      * exact Hqueue.
  - rewrite Ei. pose proof (sublist_length _ _ (sublist_delete (inflight c) i)).
    lia.
  - exact I.
  - destruct Hcase as [(Ht & Ef & _) | (_ & _ & Ef & _)]; rewrite Ef;
      [|assumption].
    apply Forall_app. split; [assumption|]. now constructor.
  - destruct Hcase as [(_ & _ & Es & _) | (Ht & Es & _)]; rewrite Es;
      [assumption|].
    apply Forall_app. split; [assumption|]. now constructor.
Qed.

Lemma raced_inflight (c : Cfg) :
  inv c -> raced_promises c ≡ₚ (inflight c).*1.
Proof.
  intros I. unfold raced_promises. now rewrite (inv_map _ _ I), swap_fst.
Qed.

Lemma nonempty_size (c : Cfg) :
  inv c -> (0 <? size (activePromises c)) = true -> inflight c ≠ [].
Proof.
  intros I H. rewrite (size_active c I) in H. apply Nat.ltb_lt in H.
  destruct (inflight c); [cbn in H; lia|done].
Qed.

Lemma empty_size (c : Cfg) :
  inv c -> (0 <? size (activePromises c)) = false -> inflight c = [].
Proof.
  intros I H. rewrite (size_active c I) in H. apply Nat.ltb_ge in H.
  destruct (inflight c); [done|cbn in H; lia].
Qed.

(** The promise that settles first after a fresh [await] is one of the
    raced promises. *)
Lemma settles_race (c : Cfg) (raced : list nat) (settled : bool)
    (i p : nat) (file_ : string) :
  inv c -> pc c = PcAwait raced settled ->
  inflight c !! i = Some (p, file_) ->
  settled || bool_decide (p ∈ raced) = true.
Proof.
  intros I Hpc Hi. destruct settled; [reflexivity|]. cbn.
  apply bool_decide_eq_true. pose proof (inv_pc _ _ I) as Ipc.
  rewrite Hpc in Ipc. destruct (Ipc eq_refl) as [-> _].
  apply (list_elem_of_fmap_2 fst (inflight c) (p, file_)).
  eapply list_elem_of_lookup_2, Hi.
Qed.

Theorem step_inv (c : Cfg) : inv c -> inv (step c).
Proof.
  intros I. unfold Client.step. destruct (pc c) as [| |raced settled|] eqn:Hpc.
  - (* the test of the outer loop *)
    destruct (0 <? length (queue c)) eqn:Hq; cbn [orb].
    + apply inv_goto; [assumption|]. left. destruct (queue c); [cbn in Hq|];
        done.
    + destruct (0 <? size (activePromises c)) eqn:Hs; apply inv_goto;
        try assumption.
      * right. now apply nonempty_size.
      * split; [|now apply empty_size].
        apply Nat.ltb_ge in Hq. destruct (queue c); [done|cbn in Hq; lia].
  - (* the test of the inner loop *)
    assert (Hleave :
      inv (if 0 <? size (activePromises c)
           then goto (PcAwait (raced_promises c) false) c
           else goto PcOuter c)).
    { destruct (0 <? size (activePromises c)) eqn:Hs; apply inv_goto;
        try assumption; [|exact Logic.I].
      intros _. split; [now apply raced_inflight|now apply nonempty_size]. }
    destruct (queue c) as [|file_ rest] eqn:Hq; [exact Hleave|].
    destruct (Z.of_nat (size (activePromises c)) <? concurrency' options)%Z
      eqn:Hlt; [|exact Hleave].
    apply start_inv; [assumption..|]. now apply Z.ltb_lt.
  - (* suspended *)
    destruct (inflight c !! (which (next_pick env c) mod length (inflight c)))
      as [[p file_]|] eqn:Hi.
    + pose proof (settle_inv _ p file_ (at_time (next_pick env c)) c I Hi)
        as I'.
      rewrite (settles_race c raced settled _ p file_ I Hpc Hi). cbn [andb].
      destruct (negb (linger (next_pick env c))); [exact I'|].
      apply (inv_goto (PcAwait raced true)) in I'; [exact I'|].
      intros [=].
    + destruct settled; [|assumption].
      apply inv_goto; [assumption|exact Logic.I].
  - assumption.
Qed.


Theorem run_inv (n : nat) (c : Cfg) : inv c -> inv (run n c).
Proof.
  intros I. induction n as [|n IH]; [exact I|]. cbn. now apply step_inv.
Qed.

Lemma initial_inv (schedule : list Pick) :
  NoDup (files options) -> inv (initial options schedule).
Proof.
  intros N. constructor; cbn.
  - now rewrite map_to_list_empty.
  - exact N.
  - exists 0. split; [now rewrite take_0|left; now rewrite drop_0].
  - lia.
  - exact Logic.I.
  - constructor.
  - constructor.
Qed.

(** ** The loop ends *)





(** ** What [renderBatch] returns *)

(** On distinct files no more than [concurrency] lifecycles are ever in
    flight, whatever the order in which they settle. *)
Theorem renderBatch_bound_on_distinct_files (schedule : list Pick) (n : nat) :
  NoDup (files options) ->
  (Z.of_nat (length (inflight (run n (initial options schedule))))
   ≤ Z.max 0 (concurrency' options))%Z.
Proof.
  intros N. apply (inv_bound options), run_inv, initial_inv, N.
Qed.


(** ** Invalid input *)

Theorem renderBatch_empty_files_throws (schedule : list Pick) (fuel : nat) :
  files options = [] ->
  renderBatch path_basename path_join config options env schedule fuel
  = Some (Throw "No files provided for batch rendering").
Proof. intros E. unfold renderBatch. now rewrite E. Qed.

(** With a concurrency of zero or less and files to render, the loop
    goes round without starting anything. *)
Lemma run_spins (schedule : list Pick) (n : nat) :
  files options ≠ [] ->
  (concurrency' options ≤ 0)%Z ->
  run n (initial options schedule) = initial options schedule ∨
  run n (initial options schedule) = goto PcInner (initial options schedule).
Proof.
  intros Hne Hc. induction n as [|n IH]; [now left|].
  change (run (S n) (initial options schedule))
    with (step (run n (initial options schedule))).
  destruct IH as [-> | ->]; unfold Client.step; cbn.
  - right. destruct (files options); [done|reflexivity].
  - left. destruct (files options) as [|f fs]; [done|].
    rewrite map_size_empty.
    assert (E : (Z.of_nat 0 <? concurrency' options)%Z = false)
      by (apply Z.ltb_ge; lia).
    now rewrite E.
Qed.

Theorem renderBatch_nonpositive_concurrency_never_returns
    (schedule : list Pick) (fuel : nat) :
  files options ≠ [] ->
  (concurrency' options ≤ 0)%Z ->
  outputDirExists env = true ->
  renderBatch path_basename path_join config options env schedule fuel = None
  ∧ inflight (run fuel (initial options schedule)) = []
  ∧ nextPromise (run fuel (initial options schedule)) = 0.
Proof.
  intros Hne Hc Hdir. unfold renderBatch. rewrite Hdir.
  destruct (files options) as [|f fs] eqn:Ef; [done|]. cbn [length Nat.eqb].
  rewrite <- Ef in *.
  destruct (run_spins schedule fuel Hne Hc) as [-> | ->]; now cbn.
Qed.

End Scheduler.

(** ** At concrete batches *)



(** C3: with one file and a concurrency of zero, [renderBatch] has
    neither thrown nor returned after any number of steps, and no
    lifecycle has been started. *)
Theorem renderBatch_zero_concurrency_never_returns
    (remotes : nat -> Remote) (schedule : list Pick) (fuel : nat) :
  renderBatch basename join funded (batch ["scene.blend"] 0 false)
              (outside remotes) schedule fuel = None ∧
  nextPromise (run basename join funded (batch ["scene.blend"] 0 false)
                   (outside remotes) fuel
                   (initial (batch ["scene.blend"] 0 false) schedule)) = 0.
Proof.
  destruct (renderBatch_nonpositive_concurrency_never_returns basename join
              funded (batch ["scene.blend"] 0 false) (outside remotes)
              schedule fuel) as (E & _ & Hn); try done.
Qed.

(** C4: three times the same file and a concurrency of two: after the
    inner loop has gone round three times, three lifecycles are in
    flight and [activePromises] has one entry. *)
Theorem renderBatch_exceeds_bound_on_repeated_file :
  let c := run basename join funded
               (batch ["a.blend"; "a.blend"; "a.blend"] 2 false)
               (outside (λ _, hub)) 4
               (initial (batch ["a.blend"; "a.blend"; "a.blend"] 2 false) [])
  in
  inflight c = [(0, "a.blend"); (1, "a.blend"); (2, "a.blend")] ∧
  size (activePromises c) = 1 ∧
  (concurrency' (batch ["a.blend"; "a.blend"; "a.blend"] 2 false)
   < Z.of_nat (length (inflight c)))%Z.
Proof. vm_compute. repeat split. Qed.

(** Three files, all at once, the second failing, [stopOnError] off:
    two successes, one failure, all three attempted. *)
Lemma renderBatch_three_files_one_failure :
  ∃ r,
    renderBatch basename join funded
      (batch ["a.blend"; "b.blend"; "c.blend"] 3 false)
      (outside (λ p, if Nat.eqb p 1 then hub_missing_file else hub)) [] 40
    = Some (Ok r) ∧
    file <$> successful r = ["a.blend"; "c.blend"] ∧
    file <$> failed r = ["b.blend"] ∧
    (stats_total (stats r), stats_completed (stats r), stats_failed (stats r))
    = (3, 2, 1).
Proof. eexists. split; [vm_compute; reflexivity|]. now cbn. Qed.

End BatchSpec.

(* ================================================================== *)
(** * Further properties of [utils/solana.ts] *)
(* ================================================================== *)

Module SolanaExtra.

Import Solana NumberFacts SolanaSpec.
Local Open Scope float_scope.

(** ** [estimateCost] against [calculatePrice] *)

(** X4. What [estimateCost] returns is the breakdown that
    [calculatePrice] computes for the chosen provider's tariff, the given
    size, the frame count or 1, sixty seconds and 5%, field by field and
    number for number, except for the total: [estimateCost]'s total is
    the sum of base price and platform fee as it is, and
    [calculatePrice]'s total is that sum rounded to six places. *)
Theorem estimateCost_agrees_with_calculatePrice
    (getProvider : string -> Res Client.Provider)
    (getProviders_online : Res (list Client.Provider))
    (size : float) (frames : option float) (providerId : option string)
    (provider : Client.Provider) (b : PriceBreakdown) :
  Client.estimateCost getProvider getProviders_online size frames providerId
  = Ok (provider, b) ->
  let r := calculatePrice (Client.pricing provider)
             {| fileSizeMb := size; frameCount := num_or frames 1;
                estimatedRenderSeconds := 60 |} (Some 5) in
  fileSizeFee b = fileSizeFee r /\
  frameFee b = frameFee r /\
  estimatedRenderFee b = estimatedRenderFee r /\
  basePrice b = basePrice r /\
  platformFee b = platformFee r /\
  total b = basePrice b + platformFee b /\
  total r = round6 (total b).
Proof.
  unfold Client.estimateCost. intros H.
  destruct (if truthy providerId then _ else _) as [p|msg]; [|discriminate].
  inversion H; subst provider b; clear H. cbn zeta.
  unfold calculatePrice.
  cbn [fileSizeFee frameFee estimatedRenderFee basePrice platformFee total
       fileSizeMb frameCount estimatedRenderSeconds].
  repeat split; reflexivity.
Qed.

Lemma estimateCost_agrees_with_calculatePrice_witness :
  let r := calculatePrice (Client.pricing Scenario.provider)
             {| fileSizeMb := 100; frameCount := num_or (Some 1) 1;
                estimatedRenderSeconds := 60 |} (Some 5) in
  fileSizeFee Scenario.estimate = fileSizeFee r /\
  frameFee Scenario.estimate = frameFee r /\
  estimatedRenderFee Scenario.estimate = estimatedRenderFee r /\
  basePrice Scenario.estimate = basePrice r /\
  platformFee Scenario.estimate = platformFee r /\
  total Scenario.estimate
  = basePrice Scenario.estimate + platformFee Scenario.estimate /\
  total r = round6 (total Scenario.estimate).
Proof.
  assert (H : Client.estimateCost (fun _ => Throw "unused")
                (Ok [Scenario.provider]) 100 (Some 1) None
              = Ok (Scenario.provider, Scenario.estimate))
    by (vm_compute; reflexivity).
  exact (estimateCost_agrees_with_calculatePrice _ _ _ _ _ _ _ H).
Defined.

(** Without a provider id [estimateCost] takes the first provider
    that is online and fails with ["No providers available"] when none
    is; with a provider id it takes the provider the hub returns for it.
    An error of the hub is passed on. *)
Lemma estimateCost_provider_choice
    (getProvider : string -> Res Client.Provider)
    (getProviders_online : Res (list Client.Provider))
    (size : float) (frames : option float) (providerId : option string) :
  let e := Client.estimateCost getProvider getProviders_online size frames
                               providerId in
  (truthy providerId = false ->
   match getProviders_online with
   | Ok [] => e = Throw "No providers available"
   | Ok (p :: _) => exists b, e = Ok (p, b)
   | Throw msg => e = Throw msg
   end) /\
  (truthy providerId = true ->
   match getProvider (Client.template providerId) with
   | Ok p => exists b, e = Ok (p, b)
   | Throw msg => e = Throw msg
   end).
Proof.
  cbn zeta. unfold Client.estimateCost. split; intros ->.
  - destruct getProviders_online as [[|p l]|msg]; try reflexivity.
    now eexists.
  - destruct (getProvider _) as [p|msg]; [now eexists|reflexivity].
Qed.

(** A frame count of zero is counted as one frame: the estimate is
    that of the absent frame count, which is that of one frame. *)
Lemma estimateCost_zero_frames_is_one_frame
    (getProvider : string -> Res Client.Provider)
    (getProviders_online : Res (list Client.Provider))
    (size : float) (providerId : option string) :
  Client.estimateCost getProvider getProviders_online size (Some 0)
                      providerId
  = Client.estimateCost getProvider getProviders_online size (Some 1)
                        providerId /\
  Client.estimateCost getProvider getProviders_online size None providerId
  = Client.estimateCost getProvider getProviders_online size (Some 1)
                        providerId.
Proof. split; reflexivity. Qed.

(** ** [verifyPayment] *)

(** Without balances what was received is [NaN]. *)
Lemma received_at_nothing (i : Z) : received_at [] [] i = nan.
Proof. unfold received_at, balance_at. now rewrite lookup_nil. Qed.

Section Verify.

Variable Number_toString : float -> string.
Variable getTransaction : string -> Res (option ConfirmedTx).

Local Abbreviation verify := (verifyPayment Number_toString getTransaction).

(** X5. [verifyPayment] answers [valid] exactly when the node returns
    the transaction, the transaction has no error, the expected
    recipient is among its account keys, and what the recipient
    received, the number [(postBalance - preBalance) / 1000000000], is
    not less than the number [expected - 0.0001]; the subtraction, the
    division and the comparison are those of binary64 numbers. *)
Theorem verifyPayment_valid_iff
    (txSignature expectedTo : string) (expected : float)
    (expectedMemo : option string) :
  valid (verify txSignature expectedTo expected expectedMemo) = true <->
  exists tx,
    getTransaction txSignature = Ok (Some tx) /\
    truthy_err (meta tx) = false /\
    In expectedTo (staticAccountKeys tx) /\
    (received_at (balances_or_empty (meta tx) postBalances)
                 (balances_or_empty (meta tx) preBalances)
                 (findIndex (fun key => String.eqb key expectedTo)
                            (staticAccountKeys tx))
     <? expected - 0.0001) = false.
Proof.
  unfold verifyPayment. split.
  - destruct (getTransaction txSignature) as [[tx|]|msg]; try discriminate.
    destruct (truthy_err (meta tx)) eqn:Eerr; [discriminate|].
    destruct (Z.eqb_spec (findIndex (fun key => String.eqb key expectedTo)
                                    (staticAccountKeys tx)) (-1)) as [E|Hne];
      [discriminate|].
    cbn zeta. destruct (_ <? _) eqn:Elt; [discriminate|]. intros _.
    exists tx. split; [reflexivity|]. split; [exact Eerr|]. split.
    + destruct (in_dec String.string_dec expectedTo (staticAccountKeys tx))
        as [Hin|Hout]; [exact Hin|exfalso].
      apply Hne. apply findIndex_from_missing. intros x Hx.
      apply String.eqb_neq. intros ->. contradiction.
    + exact Elt.
  - intros (tx & -> & -> & Hin & Hrecv).
    destruct (Z.eqb_spec (findIndex (fun key => String.eqb key expectedTo)
                                    (staticAccountKeys tx)) (-1)) as [E|Hne].
    + exfalso. revert E. apply findIndex_from_found; [lia|].
      exists expectedTo. split; [exact Hin|apply String.eqb_refl].
    + cbn zeta. now rewrite Hrecv.
Qed.

(** X6. A transaction whose [meta] is [null] carries no balances; when
    it lists the expected recipient, [verifyPayment] accepts it for
    every expected amount. *)
Theorem verifyPayment_accepts_without_meta
    (txSignature expectedTo : string) (expected : float)
    (expectedMemo : option string) (tx : ConfirmedTx) :
  getTransaction txSignature = Ok (Some tx) ->
  meta tx = None ->
  In expectedTo (staticAccountKeys tx) ->
  verify txSignature expectedTo expected expectedMemo
  = {| valid := true; error := None |}.
Proof.
  intros Htx Hmeta Hin. unfold verifyPayment. rewrite Htx, Hmeta.
  cbn [truthy_err balances_or_empty].
  destruct (Z.eqb_spec (findIndex (fun key => String.eqb key expectedTo)
                                  (staticAccountKeys tx)) (-1)) as [E|Hne].
  - exfalso. revert E. apply findIndex_from_found; [lia|].
    exists expectedTo. split; [exact Hin|apply String.eqb_refl].
  - cbn zeta. now rewrite received_at_nothing, ltb_nan_l.
Qed.

(** [verifyPayment] never throws and its two fields agree: a valid
    answer has no error, an invalid one names its reason. *)
Lemma verifyPayment_error_iff_invalid
    (txSignature expectedTo : string) (expected : float)
    (expectedMemo : option string) :
  let r := verify txSignature expectedTo expected expectedMemo in
  (valid r = true /\ error r = None) \/
  (valid r = false /\ exists msg, error r = Some msg).
Proof.
  cbn zeta. unfold verifyPayment.
  destruct (getTransaction txSignature) as [[tx|]|msg]; cbn [valid error];
    eauto.
  destruct (truthy_err (meta tx)); cbn [valid error]; eauto.
  destruct (_ =? _)%Z; cbn [valid error]; eauto.
  cbn zeta. destruct (_ <? _); cbn [valid error]; eauto.
Qed.

(** X7. A transfer that leaves the recipient with less than the number
    [expected - 0.0001], in binary64 arithmetic, is refused, and the
    reason names both amounts. *)
Theorem verifyPayment_rejects_short_payment
    (txSignature expectedTo : string) (expected : float)
    (expectedMemo : option string) (tx : ConfirmedTx) (received : float) :
  getTransaction txSignature = Ok (Some tx) ->
  truthy_err (meta tx) = false ->
  In expectedTo (staticAccountKeys tx) ->
  received_at (balances_or_empty (meta tx) postBalances)
              (balances_or_empty (meta tx) preBalances)
              (findIndex (fun key => String.eqb key expectedTo)
                         (staticAccountKeys tx)) = received ->
  (received <? expected - 0.0001) = true ->
  verify txSignature expectedTo expected expectedMemo
  = {| valid := false;
       error := Some ("Insufficient amount: expected "
                      +:+ Number_toString expected
                      +:+ ", got " +:+ Number_toString received) |}.
Proof.
  intros Htx Herr Hin Hrecv Hlt. unfold verifyPayment. rewrite Htx, Herr.
  destruct (Z.eqb_spec (findIndex (fun key => String.eqb key expectedTo)
                                  (staticAccountKeys tx)) (-1)) as [E|Hne].
  - exfalso. revert E. apply findIndex_from_found; [lia|].
    exists expectedTo. split; [exact Hin|apply String.eqb_refl].
  - cbn zeta. rewrite Hrecv. now rewrite Hlt.
Qed.

End Verify.

Lemma verifyPayment_accepts_without_meta_witness :
  verifyPayment Scenario.print_number
    (fun _ => Ok (Some {| meta := None;
                          staticAccountKeys := ["client"; "provider"] |}))
    "sig" "provider" 1000000 None
  = {| valid := true; error := None |}.
Proof.
  apply (verifyPayment_accepts_without_meta Scenario.print_number _
           "sig" "provider" 1000000 None
           {| meta := None; staticAccountKeys := ["client"; "provider"] |}).
  - reflexivity.
  - reflexivity.
  - cbn. now right; left.
Defined.

Lemma verifyPayment_rejects_short_payment_witness :
  valid (verifyPayment Scenario.print_number Scenario.node "sig" "provider"
                       1.0001001 (Some "job-42")) = false.
Proof.
  rewrite (verifyPayment_rejects_short_payment Scenario.print_number
             Scenario.node "sig" "provider" 1.0001001 (Some "job-42")
             Scenario.transfer 0.9999).
  - reflexivity.
  - reflexivity.
  - reflexivity.
  - cbn. now right; left.
  - vm_compute. reflexivity.
  - vm_compute. reflexivity.
Defined.

End SolanaExtra.

(* ================================================================== *)
(** * Further properties of the job lifecycle *)
(* ================================================================== *)

Module LifecycleExtra.

Import Client Scenario LifecycleSpec.
Local Open Scope lifecycle_scope.

(** ** [requestRender] *)

(** X8. Without a wallet address and without a private key,
    [requestRender] throws before it sends anything. *)
Theorem requestRender_needs_wallet (config : RaymentClientConfig)
    (remote : Remote) (filePath : string) (w : World) :
  truthy (wallet config) = false ->
  truthy (solana config) = false ->
  requestRender config remote filePath w
  = (Throw "Wallet address required", w).
Proof.
  intros Hw Hs. unfold requestRender. rewrite Hw.
  destruct (solana config) as [k|]; [|reflexivity].
  now rewrite Hs.
Qed.

Lemma requestRender_needs_wallet_witness :
  requestRender {| wallet := Some ""; solana := None |} hub "scene.blend"
                (world_at 0)
  = (Throw "Wallet address required", world_at 0).
Proof.
  apply (requestRender_needs_wallet {| wallet := Some ""; solana := None |}
           hub "scene.blend" (world_at 0)); reflexivity.
Defined.

(** X9. What [requestRender] returns is the quote of a 402 answer of
    the hub to the one upload it made, and that upload carries the
    configured wallet address when there is one, the public key of the
    private key otherwise. *)
Theorem requestRender_returns_the_quote (config : RaymentClientConfig)
    (remote : Remote) (filePath : string) (w w' : World)
    (payment : PaymentRequired) :
  requestRender config remote filePath w = (Ok payment, w') ->
  exists address dt,
    (if truthy (wallet config) then wallet config else solana config)
      = Some address /\
    post_render remote filePath address = (dt, Resp402 payment) /\
    w' = {| now := now w + dt;
            log := log w ++ [EvPostRender filePath address];
            fileStatuses := fileStatuses w |}.
Proof.
  unfold requestRender.
  destruct (if truthy (wallet config) then wallet config else solana config)
    as [address|]; [|discriminate].
  destruct (truthy (Some address)); cbn [negb]; [|discriminate].
  step_through.
  destruct (post_render remote filePath address) as [dt resp] eqn:E.
  step_through. destruct resp as [|p|msg]; intros H; inversion H; subst.
  exists address, dt. repeat split. exact E.
Qed.

Lemma requestRender_returns_the_quote_witness :
  exists address dt,
    Some "client-pubkey" = Some address /\
    post_render hub "scene.blend" address = (dt, Resp402 quote).
Proof.
  destruct (requestRender_returns_the_quote funded hub "scene.blend"
              (world_at 0)
              {| now := 10; log := [EvPostRender "scene.blend" "client-pubkey"];
                 fileStatuses := ∅ |} quote eq_refl)
    as (address & dt & Ha & Hp & _).
  exists address, dt. split; [exact Ha | exact Hp].
Defined.

(** ** [payForRender] and [sendPayment] *)

Lemma count_app (kind : Event -> bool) (l1 l2 : list Event) :
  count kind (l1 ++ l2) = count kind l1 + count kind l2.
Proof. unfold count. now rewrite List.filter_app, length_app. Qed.

(** The run of [payForRender], case by case. *)
Lemma payForRender_run (config : RaymentClientConfig) (remote : Remote)
    (payment : PaymentRequired) (w : World) :
  payForRender config remote payment w
  = match solana config with
    | None => (Throw "Private key required for payments", w)
    | Some _ =>
        let lamports :=
          Math_round (price payment * Solana.LAMPORTS_PER_SOL)%float in
        let memo_instruction :=
          if truthy (Some (memo payment)) then Some (memo payment)
          else None in
        let called :=
          EvSendPayment (payTo payment) (price payment) (memo payment) in
        let sent :=
          EvSendTransaction (payTo payment) lamports memo_instruction in
        let transfer :=
          sendAndConfirmTransaction remote (payTo payment) lamports
                                    memo_instruction in
        if validAddress remote (payTo payment)
        then
          match SystemProgram_transfer remote lamports with
          | Some msg =>
              (Throw msg,
               {| now := now w; log := log w ++ [called];
                  fileStatuses := fileStatuses w |})
          | None =>
              match outcome transfer with
              | Ok txSignature =>
                  let confirmed :=
                    EvPostPay (pay_jobId payment) txSignature in
                  let ack :=
                    post_render_pay remote (pay_jobId payment) txSignature in
                  let w' :=
                    {| now := now w + took transfer + took ack;
                       log := ((log w ++ [called]) ++ [sent]) ++ [confirmed];
                       fileStatuses := fileStatuses w |} in
                  match outcome ack with
                  | Ok res =>
                      if success res then (Ok (pay_jobId payment), w')
                      else (Throw (str_or (ack_error res)
                                          "Payment confirmation failed"), w')
                  | Throw msg => (Throw msg, w')
                  end
              | Throw msg =>
                  (Throw msg,
                   {| now := now w + took transfer;
                      log := (log w ++ [called]) ++ [sent];
                      fileStatuses := fileStatuses w |})
              end
          end
        else
          (Throw "Invalid public key input",
           {| now := now w; log := log w ++ [called];
              fileStatuses := fileStatuses w |})
    end.
Proof.
  unfold payForRender, Solana_sendPayment.
  destruct (solana config) as [kp|]; [|reflexivity].
  destruct (validAddress remote (payTo payment)); [|reflexivity].
  cbn [negb].
  destruct (SystemProgram_transfer remote _) as [bad|]; [reflexivity|].
  destruct (sendAndConfirmTransaction remote _ _ _) as [dt1 [sig|msg]] eqn:E1;
    cbv [bind emit throw await advance lift ret negb]; rewrite ?E1;
    cbn [took outcome fst snd now log fileStatuses]; [|reflexivity].
  destruct (post_render_pay remote _ sig) as [dt2 [ack|msg]];
    cbn [took outcome fst snd now log fileStatuses]; [|reflexivity].
  now destruct (success ack).
Qed.

(** X10. [payForRender] submits at most one transfer and confirms at
    most one payment to the hub, never a payment it has not made; when
    it returns, it returns the job id of the quote, after exactly one
    transfer and one confirmation. *)
Theorem payForRender_pays_at_most_once (config : RaymentClientConfig)
    (remote : Remote) (payment : PaymentRequired) (w : World) :
  let r := payForRender config remote payment w in
  exists evs,
    log (snd r) = log w ++ evs /\
    count is_transfer evs <= 1 /\
    count is_confirmation evs <= count is_transfer evs /\
    forall j, fst r = Ok j ->
      j = pay_jobId payment /\
      count is_transfer evs = 1 /\ count is_confirmation evs = 1.
Proof.
  cbn zeta. rewrite payForRender_run.
  destruct (solana config) as [kp|].
  2:{ exists []. rewrite app_nil_r. repeat split; try (cbn; lia);
        discriminate. }
  cbn zeta.
  destruct (validAddress remote (payTo payment)).
  2:{ eexists [_]. split; [reflexivity|].
      repeat split; try (unfold count; cbn; lia); discriminate. }
  destruct (SystemProgram_transfer remote _) as [bad|].
  { eexists [_]. split; [reflexivity|].
    repeat split; try (unfold count; cbn; lia); discriminate. }
  destruct (outcome (sendAndConfirmTransaction remote _ _ _)) as [sig|msg].
  2:{ eexists [_; _]. cbn [snd fst log]. rewrite <- app_assoc.
      split; [reflexivity|].
      repeat split; try (unfold count; cbn; lia); discriminate. }
  assert (Hshape :
    forall res : Res string,
    exists evs : list Event,
      ((log w ++
        [EvSendPayment (payTo payment) (price payment) (memo payment)]) ++
       [EvSendTransaction (payTo payment)
          (Math_round (price payment * Solana.LAMPORTS_PER_SOL)%float)
          (if truthy (Some (memo payment)) then Some (memo payment)
           else None)]) ++
      [EvPostPay (pay_jobId payment) sig] = log w ++ evs /\
      count is_transfer evs <= 1 /\
      count is_confirmation evs <= count is_transfer evs /\
      (forall j, res = Ok j -> res = Ok (pay_jobId payment) ->
         j = pay_jobId payment /\
         count is_transfer evs = 1 /\ count is_confirmation evs = 1)).
  { intros res. eexists [_; _; _]. rewrite <- !app_assoc.
    split; [reflexivity|].
    repeat split; try (unfold count; cbn; lia). congruence. }
  destruct (outcome (post_render_pay remote _ sig)) as [ack|msg];
    [destruct (success ack)|]; cbn [fst snd log].
  - destruct (Hshape (Ok (pay_jobId payment))) as (evs & E & H1 & H2 & H3).
    exists evs. split; [exact E|]. split; [exact H1|]. split; [exact H2|].
    intros j Hj. exact (H3 j Hj eq_refl).
  - destruct (Hshape (Throw "")) as (evs & E & H1 & H2 & _).
    exists evs. split; [exact E|]. split; [exact H1|]. split; [exact H2|].
    discriminate.
  - destruct (Hshape (Throw "")) as (evs & E & H1 & H2 & _).
    exists evs. split; [exact E|]. split; [exact H1|]. split; [exact H2|].
    discriminate.
Qed.

(** X11. When the hub refuses the confirmation, [payForRender] throws
    the hub's reason, or ["Payment confirmation failed"] when it gives
    none; the transfer has been submitted by then, once. *)
Theorem payForRender_refused_after_transfer (config : RaymentClientConfig)
    (remote : Remote) (payment : PaymentRequired) (w : World)
    (keypair txSignature : string) (ack : PayAck) :
  solana config = Some keypair ->
  validAddress remote (payTo payment) = true ->
  SystemProgram_transfer remote
    (Math_round (price payment * Solana.LAMPORTS_PER_SOL)%float) = None ->
  outcome (sendAndConfirmTransaction remote (payTo payment)
             (Math_round (price payment * Solana.LAMPORTS_PER_SOL)%float)
             (if truthy (Some (memo payment)) then Some (memo payment)
              else None))
  = Ok txSignature ->
  outcome (post_render_pay remote (pay_jobId payment) txSignature) = Ok ack ->
  success ack = false ->
  let r := payForRender config remote payment w in
  fst r = Throw (str_or (ack_error ack) "Payment confirmation failed") /\
  log (snd r)
  = log w ++
    [EvSendPayment (payTo payment) (price payment) (memo payment);
     EvSendTransaction (payTo payment)
       (Math_round (price payment * Solana.LAMPORTS_PER_SOL)%float)
       (if truthy (Some (memo payment)) then Some (memo payment) else None);
     EvPostPay (pay_jobId payment) txSignature].
Proof.
  intros Hk Hv He Hs Hp Ha. cbn zeta. rewrite payForRender_run, Hk.
  cbn zeta. rewrite Hv, He, Hs, Hp, Ha. cbn [fst snd log].
  now rewrite <- !app_assoc.
Qed.

Lemma payForRender_refused_after_transfer_witness :
  fst (payForRender funded refusing_hub quote (world_at 0))
  = Throw "Payment not found" /\
  count is_transfer
    (log (snd (payForRender funded refusing_hub quote (world_at 0)))) = 1.
Proof.
  destruct (payForRender_refused_after_transfer funded refusing_hub quote
              (world_at 0) "client-pubkey" "tx-1"
              {| success := false; ack_error := Some "Payment not found" |}
              eq_refl eq_refl ltac:(vm_compute; reflexivity)
              ltac:(vm_compute; reflexivity) ltac:(vm_compute; reflexivity)
              eq_refl) as [E L].
  split; [exact E|]. rewrite L. vm_compute. reflexivity.
Defined.

(** X12. [sendPayment] submits a transfer only when it can: with a
    key, a recipient that is a valid address and an amount of lamports
    that [SystemProgram.transfer] accepts, it submits one transfer, of
    [Math.round(amount * 10^9)] lamports, with a memo instruction when
    the memo is not empty, and its outcome is the chain's; without a
    key, with an invalid recipient or with lamports that cannot be
    encoded, it throws at once and submits nothing. *)
Theorem sendPayment_sends_only_what_it_can_encode
    (keypair : option string) (remote : Remote) (toWallet : string)
    (amount : float) (memo_ : string) (w : World) :
  let lamports := Math_round (amount * Solana.LAMPORTS_PER_SOL)%float in
  let instruction := if truthy (Some memo_) then Some memo_ else None in
  let chain := sendAndConfirmTransaction remote toWallet lamports
                                         instruction in
  let r := Solana_sendPayment keypair remote toWallet amount memo_ w in
  (keypair <> None -> validAddress remote toWallet = true ->
   SystemProgram_transfer remote lamports = None ->
   fst r = outcome chain /\
   now (snd r) = (now w + took chain)%Z /\
   log (snd r) = log w ++ [EvSendPayment toWallet amount memo_;
                           EvSendTransaction toWallet lamports instruction])
  /\
  (keypair = None \/ validAddress remote toWallet = false \/
   SystemProgram_transfer remote lamports <> None ->
   (exists msg, fst r = Throw msg) /\
   now (snd r) = now w /\
   log (snd r) = log w ++ [EvSendPayment toWallet amount memo_]).
Proof.
  cbn zeta. unfold Solana_sendPayment. split.
  - intros Hk Hv He. destruct keypair as [kp|]; [|contradiction].
    rewrite Hv, He. cbv [bind emit throw await advance lift ret negb].
    destruct (sendAndConfirmTransaction remote _ _ _) as [dt [sig|msg]];
      cbn [fst snd log now took outcome]; now rewrite <- app_assoc.
  - intros H. destruct keypair as [kp|].
    + destruct (validAddress remote toWallet) eqn:Hv.
      * destruct (SystemProgram_transfer remote _) as [bad|] eqn:He.
        -- cbv [bind emit throw negb]. cbn [fst snd log now]. eauto.
        -- destruct H as [H|[H|H]]; [discriminate|discriminate|].
           now contradict H.
      * cbv [bind emit throw negb]. cbn [fst snd log now]. eauto.
    + cbv [bind emit throw]. cbn [fst snd log now]. eauto.
Qed.

(** More lamports than 64 bits hold: nothing is sent. *)
Lemma sendPayment_sends_only_what_it_can_encode_witness :
  SystemProgram_transfer hub
    (Math_round (20000000000 * Solana.LAMPORTS_PER_SOL)%float)
  = Some "Invalid lamports" /\
  log (snd (Solana_sendPayment (Some "client-pubkey") hub "provider"
                               20000000000%float "m" (world_at 0)))
  = [EvSendPayment "provider" 20000000000%float "m"].
Proof.
  assert (He : SystemProgram_transfer hub
                 (Math_round (20000000000 * Solana.LAMPORTS_PER_SOL)%float)
               = Some "Invalid lamports") by (vm_compute; reflexivity).
  split; [exact He|].
  destruct (sendPayment_sends_only_what_it_can_encode (Some "client-pubkey")
              hub "provider" 20000000000%float "m" (world_at 0))
    as [_ H].
  destruct H as (_ & _ & Hlog); [|exact Hlog].
  right. right. rewrite He. discriminate.
Defined.

(** ** [waitForCompletion] *)

Lemma waitLoop_returns_an_answer (answers : list (Timed RenderJob))
    (jobId_ : string) (pollInterval timeout startTime : Z)
    (onProgress : option (RenderJob -> M unit)) (w w' : World)
    (job : RenderJob) :
  waitLoop answers jobId_ pollInterval timeout startTime onProgress w
  = (Ok job, w') ->
  exists a, In a answers /\ outcome a = Ok job.
Proof.
  revert w. induction answers as [|a rest IH]; intros w H.
  - cbv [waitLoop getJobStatus bind emit throw] in H. discriminate.
  - cbn [waitLoop] in H. unfold bind at 1 in H.
    destruct (pollOnce (Some a) jobId_ pollInterval timeout startTime
                       onProgress w) as [[[j|]|msg] w1] eqn:E;
      [| apply IH in H as (b & Hb & Ho); exists b; split;
         [now right | exact Ho] | discriminate].
    unfold ret in H. inversion H; subst j w1; clear H.
    exists a. split; [now left|].
    unfold pollOnce, getJobStatus in E.
    cbv [bind emit await advance lift] in E.
    destruct (outcome a) as [j|m]; [|discriminate].
    cbn [fst snd] in E.
    destruct (match onProgress with Some cb => cb j | None => ret () end _)
      as [[[]|m] w3]; [|discriminate].
    destruct (job_status j) eqn:Es; cbn in E;
      try (destruct (timeout <? _)%Z; cbn in E; discriminate);
      try discriminate.
    unfold ret in E. now inversion E.
Qed.

(** X14. The job that [waitForCompletion] returns is an answer of the
    hub to one of its polls, and its status is ['completed']. *)
Theorem waitForCompletion_returns_completed_answer (remote : Remote)
    (jobId_ : string) (pollInterval timeout : option Z)
    (onProgress : option (RenderJob -> M unit)) (w w' : World)
    (job : RenderJob) :
  waitForCompletion remote jobId_ pollInterval timeout onProgress w
  = (Ok job, w') ->
  job_status job = job_completed /\
  exists a, In a (get_render remote) /\ outcome a = Ok job.
Proof.
  unfold waitForCompletion, bind, Date_now. intros H. split.
  - exact (waitLoop_returns_completed _ _ _ _ _ _ _ _ _ H).
  - exact (waitLoop_returns_an_answer _ _ _ _ _ _ _ _ _ H).
Qed.

Lemma waitForCompletion_returns_completed_answer_witness :
  job_status (rendered job_completed) = job_completed /\
  exists a, In a (get_render hub) /\ outcome a = Ok (rendered job_completed).
Proof.
  apply (waitForCompletion_returns_completed_answer hub "job-1" None None
           None (world_at 0)
           {| now := 2020;
              log := [EvGetStatus "job-1"; EvSleep 2000; EvGetStatus "job-1"];
              fileStatuses := ∅ |}).
  reflexivity.
Defined.

(** What one turn of the loop does when it goes round again. *)
Lemma pollOnce_again (a : Timed RenderJob) (jobId_ : string)
    (pollInterval timeout startTime : Z)
    (onProgress : option (RenderJob -> M unit)) (w w' : World) :
  (forall cb j v, onProgress = Some cb -> now (snd (cb j v)) = now v) ->
  pollOnce (Some a) jobId_ pollInterval timeout startTime onProgress w
  = (Ok None, w') ->
  (now w + took a - startTime <= timeout)%Z /\
  now w'
  = (now w + took a
     + (if (pollInterval <? 1)%Z || (2147483647 <? pollInterval)%Z
        then 1 else pollInterval))%Z.
Proof.
  intros Hcb. unfold pollOnce, getJobStatus.
  cbv [bind emit await advance lift].
  destruct (outcome a) as [j|m]; [|discriminate].
  cbn [fst snd now log fileStatuses].
  set (w1 := {| now := now w + took a;
                log := log w ++ [EvGetStatus jobId_];
                fileStatuses := fileStatuses w |}).
  assert (Hclock : forall r v,
            match onProgress with Some cb => cb j | None => ret () end w1
            = (r, v) -> now v = (now w + took a)%Z).
  { intros r v E. destruct onProgress as [cb|].
    - pose proof (Hcb cb j w1 eq_refl) as H. rewrite E in H. exact H.
    - unfold ret in E. now inversion E. }
  destruct (match onProgress with Some cb => cb j | None => ret () end w1)
    as [[[]|m] w2] eqn:E; cbv beta iota; [|discriminate].
  pose proof (Hclock _ _ eq_refl) as Hw2.
  destruct (JobStatus_eqb (job_status j) job_completed);
    [unfold ret; discriminate|].
  destruct (JobStatus_eqb (job_status j) job_failed);
    [unfold throw; discriminate|].
  cbv [Date_now sleep bind emit advance throw ret]. cbn [fst snd now].
  destruct (Z.ltb_spec timeout (now w2 - startTime)); cbv beta iota;
    [discriminate|].
  intros Hret. inversion Hret; subst w'; clear Hret. cbn [now].
  rewrite Hw2 in *. split; [lia|reflexivity].
Qed.

Lemma keep_polling_clock (pre : list (Timed RenderJob)) (jobId_ : string)
    (pollInterval timeout startTime : Z)
    (onProgress : option (RenderJob -> M unit)) (w w1 : World) :
  (forall cb j v, onProgress = Some cb -> now (snd (cb j v)) = now v) ->
  (1 <= pollInterval <= 2147483647)%Z ->
  Forall (fun a => (0 <= took a)%Z) pre ->
  keep_polling pre jobId_ pollInterval timeout startTime onProgress w
  = Some w1 ->
  (now w + Z.of_nat (length pre) * pollInterval <= now w1)%Z /\
  (pre <> [] -> (now w1 - pollInterval - startTime <= timeout)%Z).
Proof.
  intros Hcb Hp. revert w. induction pre as [|a pre IH]; intros w Hpos H.
  - cbn in H. inversion H; subst. cbn. split; [lia|congruence].
  - cbn [keep_polling] in H.
    destruct (pollOnce (Some a) jobId_ pollInterval timeout startTime
                       onProgress w) as [[[j|]|m] w'] eqn:E;
      try discriminate.
    destruct (pollOnce_again _ _ _ _ _ _ _ _ Hcb E) as [Hdead Hnow].
    assert (Hd : (if (pollInterval <? 1) || (2147483647 <? pollInterval)
                  then 1 else pollInterval)%Z = pollInterval).
    { destruct (Z.ltb_spec pollInterval 1); [lia|].
      destruct (Z.ltb_spec 2147483647 pollInterval); [lia|reflexivity]. }
    rewrite Hd in Hnow. inversion Hpos as [|? ? Ha Hrest]; subst.
    destruct (IH w' Hrest H) as [Hclock Hlast]. split.
    + cbn [length]. lia.
    + intros _. destruct pre as [|b pre'].
      * cbn in H. inversion H; subst. lia.
      * apply Hlast. discriminate.
Qed.

(** X15. The loop of [waitForCompletion] goes round at most
    [timeout / pollInterval + 1] times: when the hub's answers take no
    negative time, the listener leaves the clock alone and the interval
    is one that [setTimeout] honours, [n >= 1] polls that each let the
    loop go round again satisfy [(n - 1) * pollInterval <= timeout]. *)
Theorem waitForCompletion_rounds_bounded (pre : list (Timed RenderJob))
    (jobId_ : string) (pollInterval timeout : Z)
    (onProgress : option (RenderJob -> M unit)) (w w1 : World) :
  (forall cb j v, onProgress = Some cb -> now (snd (cb j v)) = now v) ->
  (1 <= pollInterval <= 2147483647)%Z ->
  Forall (fun a => (0 <= took a)%Z) pre ->
  pre <> [] ->
  keep_polling pre jobId_ pollInterval timeout (now w) onProgress w
  = Some w1 ->
  ((Z.of_nat (length pre) - 1) * pollInterval <= timeout)%Z.
Proof.
  intros Hcb Hp Hpos Hne H.
  destruct (keep_polling_clock _ _ _ _ _ _ _ _ Hcb Hp Hpos H) as [Hc Hl].
  specialize (Hl Hne). lia.
Qed.

(** With a timeout of 2.5 s and an interval of 2 s, two polls that see
    the job rendering let the loop go round; a third one would meet the
    timeout. *)
Lemma waitForCompletion_rounds_bounded_witness :
  keep_polling [answer 10 (Ok (rendered job_rendering));
                answer 10 (Ok (rendered job_rendering))]
               "job-1" 2000 2500 0 None (world_at 0)
  = Some {| now := 4020;
            log := [EvGetStatus "job-1"; EvSleep 2000;
                    EvGetStatus "job-1"; EvSleep 2000];
            fileStatuses := ∅ |} /\
  keep_polling [answer 10 (Ok (rendered job_rendering));
                answer 10 (Ok (rendered job_rendering));
                answer 10 (Ok (rendered job_rendering))]
               "job-1" 2000 2500 0 None (world_at 0) = None /\
  ((Z.of_nat 2 - 1) * 2000 <= 2500)%Z.
Proof.
  assert (H : keep_polling [answer 10 (Ok (rendered job_rendering));
                            answer 10 (Ok (rendered job_rendering))]
                           "job-1" 2000 2500 (now (world_at 0)) None
                           (world_at 0)
              = Some {| now := 4020;
                        log := [EvGetStatus "job-1"; EvSleep 2000;
                                EvGetStatus "job-1"; EvSleep 2000];
                        fileStatuses := ∅ |})
    by (vm_compute; reflexivity).
  split; [exact H|]. split; [vm_compute; reflexivity|].
  apply (waitForCompletion_rounds_bounded
           [answer 10 (Ok (rendered job_rendering));
            answer 10 (Ok (rendered job_rendering))] "job-1" 2000 2500
           None (world_at 0) _ ltac:(discriminate) ltac:(lia)
           ltac:(repeat constructor; cbn; lia) ltac:(discriminate) H).
Defined.

(** X16. When the hub reports the job failed, [waitForCompletion] throws
    ["Render failed: "] followed by the hub's error, after that poll and
    without sleeping or polling again. *)
Theorem waitForCompletion_reports_remote_failure (remote : Remote)
    (jobId_ : string) (pollInterval timeout : option Z)
    (pre rest : list (Timed RenderJob)) (a : Timed RenderJob)
    (job : RenderJob) (w w1 : World) :
  get_render remote = pre ++ a :: rest ->
  keep_polling pre jobId_ (int_or pollInterval 2000)
               (int_or timeout 600000) (now w) None w = Some w1 ->
  outcome a = Ok job ->
  job_status job = job_failed ->
  waitForCompletion remote jobId_ pollInterval timeout None w
  = (Throw ("Render failed: " +:+ template (job_error job)),
     {| now := now w1 + took a; log := log w1 ++ [EvGetStatus jobId_];
        fileStatuses := fileStatuses w1 |}).
Proof.
  intros Hpolls Hpre Ha Hst. unfold waitForCompletion.
  unfold bind at 1, Date_now. rewrite Hpolls.
  rewrite (waitLoop_after_pending _ _ _ _ _ _ _ _ _ Hpre).
  cbn [waitLoop]. unfold pollOnce, getJobStatus.
  cbv [bind emit await advance lift ret throw]. rewrite Ha.
  cbn [fst snd]. now rewrite Hst.
Qed.

Lemma waitForCompletion_reports_remote_failure_witness :
  fst (waitForCompletion failing_hub "job-1" None None None (world_at 0))
  = Throw "Render failed: GPU out of memory".
Proof.
  rewrite (waitForCompletion_reports_remote_failure failing_hub "job-1"
             None None [answer 10 (Ok (rendered job_rendering))] []
             (answer 10 (Ok {| job_id := "job-1"; job_status := job_failed;
                               job_renderTime := None;
                               job_error := Some "GPU out of memory" |}))
             {| job_id := "job-1"; job_status := job_failed;
                job_renderTime := None;
                job_error := Some "GPU out of memory" |}
             (world_at 0)
             {| now := 2010; log := [EvGetStatus "job-1"; EvSleep 2000];
                fileStatuses := ∅ |}); reflexivity.
Defined.

(** ** Names and paths *)

Lemma prefix_app (a b : list ascii) :
  String.prefix (String.string_of_list_ascii a)
                (String.string_of_list_ascii (a ++ b)) = true.
Proof.
  induction a as [|c a IH];
    [cbn; now destruct (String.string_of_list_ascii b)|]. cbn.
  destruct (Ascii.ascii_dec c c); [exact IH|congruence].
Qed.

Lemma list_ascii_app (s1 s2 : string) :
  String.list_ascii_of_string (s1 +:+ s2)
  = String.list_ascii_of_string s1 ++ String.list_ascii_of_string s2.
Proof.
  induction s1 as [|c s1 IH]; [reflexivity|].
  change (String c s1 +:+ s2) with (String c (s1 +:+ s2)).
  cbn [String.list_ascii_of_string app]. now rewrite IH.
Qed.

Lemma endsWith_app (s suffix : string) : endsWith (s +:+ suffix) suffix = true.
Proof.
  unfold endsWith. rewrite list_ascii_app, rev_app_distr. apply prefix_app.
Qed.

(** X17. The path that [downloadResult] returns ends in [".png"]: it is
    the given path when that ends in [".png"], the given path with
    [".png"] appended otherwise; it is the one path written, after the
    download.  When the download fails nothing is written. *)
Theorem downloadResult_writes_png (remote : Remote)
    (jobId_ outputPath_ : string) (w : World) :
  let r := downloadResult remote jobId_ outputPath_ w in
  match fst r with
  | Ok path =>
      endsWith path ".png" = true /\
      (path = outputPath_ \/ path = outputPath_ +:+ ".png") /\
      (exists data, outcome (get_render_result remote jobId_) = Ok data) /\
      log (snd r) = log w ++ [EvGetResult jobId_; EvWriteFile path]
  | Throw msg =>
      (outcome (get_render_result remote jobId_) = Throw msg /\
       log (snd r) = log w ++ [EvGetResult jobId_]) \/
      (exists path,
         writeFileSync remote path = Some msg /\
         log (snd r) = log w ++ [EvGetResult jobId_; EvWriteFile path])
  end.
Proof.
  cbn zeta. unfold downloadResult.
  cbv [bind emit await advance lift ret throw].
  destruct (get_render_result remote jobId_) as [dt [data|msg]];
    cbn [fst snd outcome took log].
  2:{ left. now split. }
  assert (Hpath :
    endsWith (if endsWith outputPath_ ".png" then outputPath_
              else outputPath_ +:+ ".png") ".png" = true /\
    ((if endsWith outputPath_ ".png" then outputPath_
      else outputPath_ +:+ ".png") = outputPath_ \/
     (if endsWith outputPath_ ".png" then outputPath_
      else outputPath_ +:+ ".png") = outputPath_ +:+ ".png")).
  { destruct (endsWith outputPath_ ".png") eqn:E.
    - split; [exact E|now left].
    - split; [apply endsWith_app|now right]. }
  destruct (writeFileSync remote _) as [msg|] eqn:Ew; cbn [fst snd log].
  - right. eexists. split; [exact Ew|]. now rewrite <- app_assoc.
  - destruct Hpath as [H1 H2]. split; [exact H1|]. split; [exact H2|].
    split; [now exists data|]. now rewrite <- app_assoc.
Qed.

Lemma take_ext_app (e stem : list ascii) :
  ~ In "."%char e -> take_ext (e ++ "."%char :: stem) = Some (e, stem).
Proof.
  induction e as [|c e IH]; intros Hno.
  - reflexivity.
  - cbn [app take_ext]. destruct (Ascii.eqb_spec c ".") as [->|_].
    + exfalso. apply Hno. now left.
    + rewrite IH; [reflexivity|]. intros H. apply Hno. now right.
Qed.

Lemma take_ext_no_dot (l : list ascii) :
  ~ In "."%char l -> take_ext l = None.
Proof.
  induction l as [|c l IH]; intros Hno; [reflexivity|].
  cbn [take_ext]. destruct (Ascii.eqb_spec c ".") as [->|_].
  - exfalso. apply Hno. now left.
  - rewrite IH; [reflexivity|]. intros H. apply Hno. now right.
Qed.

(** X18. [replace_extension] replaces what follows the last dot of a
    name: a name [stem.ext], with [ext] not empty and free of dots,
    becomes [stem] followed by the new extension, whatever [ext] is, so
    that two names with the same stem get the same result; a name
    without a dot is left as it is. *)
Theorem replace_extension_last_dot (stem ext ext' new : string) (name : string) :
  ext <> "" -> ~ In "."%char (String.list_ascii_of_string ext) ->
  ext' <> "" -> ~ In "."%char (String.list_ascii_of_string ext') ->
  ~ In "."%char (String.list_ascii_of_string name) ->
  replace_extension (stem +:+ "." +:+ ext) new = stem +:+ new /\
  replace_extension (stem +:+ "." +:+ ext) new
  = replace_extension (stem +:+ "." +:+ ext') new /\
  replace_extension name new = name.
Proof.
  assert (Hone : forall e, e <> "" ->
            ~ In "."%char (String.list_ascii_of_string e) ->
            replace_extension (stem +:+ "." +:+ e) new = stem +:+ new).
  { intros e Hne Hno. unfold replace_extension.
    rewrite !list_ascii_app, rev_app_distr. cbn [String.list_ascii_of_string].
    rewrite rev_app_distr. cbn [rev app]. rewrite <- app_assoc. cbn [app].
    rewrite take_ext_app by (now rewrite <- in_rev).
    destruct (rev (String.list_ascii_of_string e)) as [|c l] eqn:E.
    - exfalso. apply Hne.
      rewrite <- (String.string_of_list_ascii_of_string e).
      apply (f_equal (@rev ascii)) in E. rewrite rev_involutive in E.
      now rewrite E.
    - now rewrite rev_involutive, String.string_of_list_ascii_of_string. }
  intros He Hd He' Hd' Hname. split; [now apply Hone|]. split.
  - now rewrite !Hone.
  - unfold replace_extension.
    rewrite take_ext_no_dot by (now rewrite <- in_rev). reflexivity.
Qed.

Lemma replace_extension_last_dot_witness :
  replace_extension ("castle.v2" +:+ "." +:+ "blend") ".png"
  = "castle.v2" +:+ ".png" /\
  replace_extension ("castle.v2" +:+ "." +:+ "blend") ".png"
  = replace_extension ("castle.v2" +:+ "." +:+ "obj") ".png" /\
  replace_extension "Makefile" ".png" = "Makefile".
Proof.
  apply (replace_extension_last_dot "castle.v2" "blend" "obj" ".png"
           "Makefile").
  - discriminate.
  - cbn. intros H. repeat (destruct H as [H|H]; [discriminate|]). exact H.
  - discriminate.
  - cbn. intros H. repeat (destruct H as [H|H]; [discriminate|]). exact H.
  - cbn. intros H. repeat (destruct H as [H|H]; [discriminate|]). exact H.
Defined.

(** ** Counting the transfers of a run *)

Import Frames.

Lemma spends_weaken {A} (n n' : nat) (m : M A) :
  n <= n' -> spends n m -> spends n' m.
Proof.
  intros Hle H w. destruct (H w) as (evs & E & C). exists evs.
  split; [exact E|lia].
Qed.

Lemma spends_ret {A} (a : A) : spends 0 (ret a).
Proof. intros w. exists []. now rewrite app_nil_r. Qed.

Lemma spends_throw {A} (msg : string) : spends 0 (@throw A msg).
Proof. intros w. exists []. now rewrite app_nil_r. Qed.

Lemma spends_lift {A} (r : Res A) : spends 0 (lift r).
Proof. intros w. exists []. now rewrite app_nil_r. Qed.

Lemma spends_advance (dt : Z) : spends 0 (advance dt).
Proof. intros w. exists []. cbn. now rewrite app_nil_r. Qed.

Lemma spends_Date_now : spends 0 Date_now.
Proof. intros w. exists []. now rewrite app_nil_r. Qed.

Lemma spends_emit (e : Event) : spends (count is_transfer [e]) (emit e).
Proof. intros w. exists [e]. now split. Qed.

Lemma spends_bind {A B} (n1 n2 : nat) (m : M A) (k : A -> M B) :
  spends n1 m -> (forall a, spends n2 (k a)) -> spends (n1 + n2) (bind m k).
Proof.
  intros Hm Hk w. destruct (Hm w) as (e1 & E1 & C1). unfold bind.
  destruct (m w) as [[a|msg] w1]; cbn [fst snd] in *.
  - destruct (Hk a w1) as (e2 & E2 & C2). exists (e1 ++ e2).
    rewrite E2, E1, app_assoc. split; [reflexivity|].
    rewrite count_app. lia.
  - exists e1. split; [exact E1|lia].
Qed.

Lemma spends_try_catch {A} (n1 n2 : nat) (m : M A) (h : string -> M A) :
  spends n1 m -> (forall msg, spends n2 (h msg)) ->
  spends (n1 + n2) (try_catch m h).
Proof.
  intros Hm Hh w. destruct (Hm w) as (e1 & E1 & C1). unfold try_catch.
  destruct (m w) as [[a|msg] w1]; cbn [fst snd] in *.
  - exists e1. split; [exact E1|lia].
  - destruct (Hh msg w1) as (e2 & E2 & C2). exists (e1 ++ e2).
    rewrite E2, E1, app_assoc. split; [reflexivity|].
    rewrite count_app. lia.
Qed.

Lemma spends_await {A} (t : Timed A) : spends 0 (await t).
Proof.
  unfold await. apply (spends_bind 0 0); [apply spends_advance|].
  intros _. apply spends_lift.
Qed.

Lemma spends_sleep (ms : Z) : spends 0 (sleep ms).
Proof.
  unfold sleep. apply (spends_bind 0 0); [apply (spends_emit (EvSleep ms))|].
  intros _. apply spends_advance.
Qed.

Lemma spends_updateFileStatus (options : BatchRenderOptions) (file_ : string)
    (update : StatusUpdate) :
  spends 0 (updateFileStatus options file_ update).
Proof.
  intros w. unfold updateFileStatus. cbn [snd log].
  destruct (onFileProgress options).
  - eexists [_]. now split.
  - exists []. now rewrite app_nil_r.
Qed.

Lemma spends_requestRender (config : RaymentClientConfig) (remote : Remote)
    (filePath : string) :
  spends 0 (requestRender config remote filePath).
Proof.
  unfold requestRender.
  destruct (if truthy (wallet config) then wallet config else solana config)
    as [address|]; [|apply spends_throw].
  destruct (negb (truthy (Some address))); [apply spends_throw|].
  apply (spends_bind 0 0); [apply (spends_emit (EvPostRender _ _))|].
  intros _. destruct (post_render remote filePath address) as [dt resp].
  apply (spends_bind 0 0); [apply spends_advance|]. intros _.
  destruct resp; [apply spends_throw|apply spends_ret|apply spends_throw].
Qed.

Lemma spends_payForRender (config : RaymentClientConfig) (remote : Remote)
    (payment : PaymentRequired) :
  spends 1 (payForRender config remote payment).
Proof.
  unfold payForRender, Solana_sendPayment.
  destruct (solana config) as [kp|];
    [|apply (spends_weaken 0); [lia|apply spends_throw]].
  apply (spends_bind 1 0).
  - apply (spends_bind 0 1); [apply (spends_emit (EvSendPayment _ _ _))|].
    intros _. destruct (negb (validAddress remote (payTo payment)));
      [apply (spends_weaken 0); [lia|apply spends_throw]|].
    destruct (SystemProgram_transfer remote _) as [bad|];
      [apply (spends_weaken 0); [lia|apply spends_throw]|].
    apply (spends_bind 1 0);
      [apply (spends_emit (EvSendTransaction _ _ _))|].
    intros _. apply spends_await.
  - intros sig. apply (spends_bind 0 0);
      [apply (spends_emit (EvPostPay _ _))|].
    intros _. apply (spends_bind 0 0); [apply spends_await|].
    intros ack. destruct (negb (success ack));
      [apply spends_throw|apply spends_ret].
Qed.

Lemma spends_pollOnce (answer : option (Timed RenderJob)) (jobId_ : string)
    (pollInterval timeout startTime : Z)
    (onProgress : option (RenderJob -> M unit)) :
  (forall cb j, onProgress = Some cb -> spends 0 (cb j)) ->
  spends 0 (pollOnce answer jobId_ pollInterval timeout startTime onProgress).
Proof.
  intros Hcb. unfold pollOnce, getJobStatus.
  apply (spends_bind 0 0).
  - apply (spends_bind 0 0); [apply (spends_emit (EvGetStatus _))|].
    intros _. destruct answer; [apply spends_await|apply spends_throw].
  - intros job. apply (spends_bind 0 0).
    + destruct onProgress as [cb|]; [now apply Hcb|apply spends_ret].
    + intros _. destruct (JobStatus_eqb _ _); [apply spends_ret|].
      destruct (JobStatus_eqb _ _); [apply spends_throw|].
      apply (spends_bind 0 0); [apply spends_Date_now|]. intros t.
      destruct (_ <? _)%Z; [apply spends_throw|].
      apply (spends_bind 0 0); [apply spends_sleep|]. intros _.
      apply spends_ret.
Qed.

Lemma spends_waitLoop (answers : list (Timed RenderJob)) (jobId_ : string)
    (pollInterval timeout startTime : Z)
    (onProgress : option (RenderJob -> M unit)) :
  (forall cb j, onProgress = Some cb -> spends 0 (cb j)) ->
  spends 0 (waitLoop answers jobId_ pollInterval timeout startTime
                     onProgress).
Proof.
  intros Hcb. induction answers as [|a rest IH]; cbn [waitLoop].
  - unfold getJobStatus. apply (spends_bind 0 0);
      [apply (spends_emit (EvGetStatus _))|]. intros _. apply spends_throw.
  - apply (spends_bind 0 0); [now apply spends_pollOnce|].
    intros [job|]; [apply spends_ret|exact IH].
Qed.

Lemma spends_waitForCompletion (remote : Remote) (jobId_ : string)
    (pollInterval timeout : option Z)
    (onProgress : option (RenderJob -> M unit)) :
  (forall cb j, onProgress = Some cb -> spends 0 (cb j)) ->
  spends 0 (waitForCompletion remote jobId_ pollInterval timeout onProgress).
Proof.
  intros Hcb. unfold waitForCompletion.
  apply (spends_bind 0 0); [apply spends_Date_now|]. intros t.
  now apply spends_waitLoop.
Qed.

Lemma spends_downloadResult (remote : Remote) (jobId_ outputPath_ : string) :
  spends 0 (downloadResult remote jobId_ outputPath_).
Proof.
  unfold downloadResult.
  apply (spends_bind 0 0); [apply (spends_emit (EvGetResult _))|]. intros _.
  apply (spends_bind 0 0); [apply spends_await|]. intros data.
  apply (spends_bind 0 0); [apply (spends_emit (EvWriteFile _))|]. intros _.
  destruct (writeFileSync remote _); [apply spends_throw|apply spends_ret].
Qed.

(** X19. One run of [processFile] submits at most one transfer,
    whatever the hub, the chain and the file system answer. *)
Theorem processFile_pays_at_most_once
    (path_basename : string -> string)
    (path_join : string -> string -> string)
    (config : RaymentClientConfig) (options : BatchRenderOptions)
    (remote : Remote) (filePath : string) (w : World) :
  exists evs,
    log (snd (processFile path_basename path_join config options remote
                          filePath w)) = log w ++ evs /\
    count is_transfer evs <= 1.
Proof.
  revert w. change (spends 1 (processFile path_basename path_join config
                                          options remote filePath)).
  unfold processFile. apply (spends_try_catch 1 0).
  - destruct (negb (existsSync remote filePath));
      [apply (spends_weaken 0); [lia|apply spends_throw]|].
    apply (spends_bind 0 1); [apply spends_updateFileStatus|]. intros _.
    apply (spends_bind 0 1); [apply spends_requestRender|]. intros payment.
    apply (spends_bind 0 1); [apply spends_updateFileStatus|]. intros _.
    apply (spends_bind 1 0); [apply spends_payForRender|]. intros jobId_.
    apply (spends_bind 0 0); [apply spends_updateFileStatus|]. intros _.
    apply (spends_bind 0 0).
    { apply spends_waitForCompletion. intros cb j [= <-].
      apply spends_updateFileStatus. }
    intros job.
    apply (spends_bind 0 0); [apply spends_updateFileStatus|]. intros _.
    apply (spends_bind 0 0); [apply spends_downloadResult|].
    intros resultPath.
    apply (spends_bind 0 0); [apply spends_updateFileStatus|]. intros _.
    apply spends_ret.
  - intros msg. apply (spends_bind 0 0); [apply spends_updateFileStatus|].
    intros _. apply spends_ret.
Qed.

(** X20. One run of [render] submits at most one transfer, with any
    listener that submits none itself. *)
Theorem render_pays_at_most_once
    (Number_toString : float -> string) (config : RaymentClientConfig)
    (remote : Remote) (filePath outputPath_ : string)
    (onProgress : option (string -> option RenderJob -> M unit))
    (w : World) :
  (forall cb status job v, onProgress = Some cb ->
     exists evs, log (snd (cb status job v)) = log v ++ evs /\
                 count is_transfer evs <= 0) ->
  exists evs,
    log (snd (render Number_toString config remote filePath outputPath_
                     onProgress w)) = log w ++ evs /\
    count is_transfer evs <= 1.
Proof.
  intros Hcb.
  assert (Htell : forall status job, spends 0 (tell onProgress status job)).
  { intros status job. unfold tell. destruct onProgress as [cb|];
      [|apply spends_ret]. intros v. now apply Hcb. }
  revert w. change (spends 1 (render Number_toString config remote filePath
                                     outputPath_ onProgress)).
  unfold render.
  apply (spends_bind 0 1); [apply Htell|]. intros _.
  apply (spends_bind 0 1); [apply spends_requestRender|]. intros payment.
  apply (spends_bind 0 1); [apply Htell|]. intros _.
  apply (spends_bind 0 1); [apply Htell|]. intros _.
  apply (spends_bind 1 0); [apply spends_payForRender|]. intros jobId_.
  apply (spends_bind 0 0).
  { apply spends_waitForCompletion. intros cb j [= <-]. apply Htell. }
  intros job.
  apply (spends_bind 0 0); [apply Htell|]. intros _.
  apply (spends_bind 0 0); [apply spends_downloadResult|]. intros resultPath.
  apply (spends_bind 0 0); [apply Htell|]. intros _.
  apply spends_ret.
Qed.

Lemma render_pays_at_most_once_witness :
  exists evs,
    log (snd (render (fun _ => "0.008375") funded hub "scene.blend"
                     "scene.png" None (world_at 0))) = [] ++ evs /\
    count is_transfer evs <= 1.
Proof.
  apply (render_pays_at_most_once (fun _ => "0.008375") funded hub
           "scene.blend" "scene.png" None (world_at 0)).
  intros cb status job v H. discriminate H.
Defined.

(** ** [processFile] against [render] *)























(** ** What [processFile] leaves behind *)



(** The entry of a file right after a status update. *)
Lemma status_after_update (options : BatchRenderOptions) (file_ : string)
    (update : StatusUpdate) (w : World) :
  exists current,
    fileStatuses (snd (updateFileStatus options file_ update w)) !! file_
    = Some (merge current update).
Proof. eexists. apply lookup_insert_eq. Qed.

(** With a file listener that returns, [processFile] is fulfilled, and
    the last status recorded for the file matches the result. *)
Lemma processFile_fulfilled_with_status
    (path_basename : string -> string)
    (path_join : string -> string -> string)
    (config : RaymentClientConfig) (options : BatchRenderOptions)
    (remote : Remote) (filePath : string) (w : World) :
  exists r st w',
    processFile path_basename path_join config options remote filePath w
    = (Ok r, w') /\
    fileStatuses w' !! filePath = Some st /\
    match error r with
    | None =>
        fs_status st = st_completed /\
        fs_outputPath st = outputPath r /\
        fs_renderTime st = renderTime r /\
        outputPath r <> None
    | Some msg => fs_status st = st_failed /\ fs_error st = Some msg
    end.
Proof.
  assert (Hfail : forall msg v,
    exists r st w',
      (let result := failure filePath msg in
       updateFileStatus options filePath (failed_with msg) ;; ret result)%lifecycle v
      = (Ok r, w') /\
      fileStatuses w' !! filePath = Some st /\
      match error r with
      | None =>
          fs_status st = st_completed /\
          fs_outputPath st = outputPath r /\
          fs_renderTime st = renderTime r /\
          outputPath r <> None
      | Some msg => fs_status st = st_failed /\ fs_error st = Some msg
      end).
  { intros msg v.
    destruct (status_after_update options filePath (failed_with msg) v)
      as (current & Hst).
    cbn zeta. unfold bind. rewrite updateFileStatus_ok. unfold ret.
    eexists _, _, _. split; [reflexivity|]. split; [exact Hst|]. now split. }
  unfold processFile, try_catch.
  match goal with
  | |- context [match ?body w with _ => _ end] =>
      destruct (body w) as [[r|msg] w1] eqn:E
  end; [|apply Hfail].
  destruct (existsSync remote filePath); cbn [negb] in E; [|discriminate].
  unfold bind in E. rewrite updateFileStatus_ok in E.
  destruct (requestRender _ _ _ _) as [[payment|m] w2]; [|discriminate].
  rewrite updateFileStatus_ok in E.
  destruct (payForRender _ _ _ _) as [[jobId_|m] w3]; [|discriminate].
  rewrite updateFileStatus_ok in E.
  destruct (waitForCompletion _ _ _ _ _ _) as [[job|m] w4]; [|discriminate].
  rewrite updateFileStatus_ok in E.
  destruct (downloadResult _ _ _ _) as [[resultPath|m] w5]; [|discriminate].
  rewrite updateFileStatus_ok in E. unfold ret in E.
  inversion E; subst r w1; clear E.
  destruct (status_after_update options filePath
              (completed_with resultPath job) w5) as (current & Hst).
  eexists _, _, _. split; [reflexivity|]. split; [exact Hst|].
  cbn. repeat split. discriminate.
Qed.

(** X23. Whenever [processFile] is fulfilled, the last status recorded
    for the file matches the result it is fulfilled with: ['completed'],
    with the result's output path and render time, when the result has
    no error; ['failed'], with the result's error, when it has one. *)
Theorem processFile_final_status_matches_result
    (path_basename : string -> string)
    (path_join : string -> string -> string)
    (config : RaymentClientConfig) (options : BatchRenderOptions)
    (remote : Remote) (filePath : string) (w w' : World)
    (r : BatchFileResult) :
  processFile path_basename path_join config options remote filePath w
  = (Ok r, w') ->
  exists st,
    fileStatuses w' !! filePath = Some st /\
    match error r with
    | None =>
        fs_status st = st_completed /\
        fs_outputPath st = outputPath r /\
        fs_renderTime st = renderTime r /\
        outputPath r <> None
    | Some msg => fs_status st = st_failed /\ fs_error st = Some msg
    end.
Proof.
  intros H.
  destruct (processFile_fulfilled_with_status path_basename path_join config
              options remote filePath w) as (r0 & st & w0 & E & Hst & Hm).
  rewrite E in H. inversion H; subst r0 w0. now exists st.
Qed.

Lemma pair_of_fst {A B} (p : A * B) (a : A) : fst p = a -> p = (a, snd p).
Proof. destruct p. cbn. now intros ->. Qed.

(** A scene that renders ends as ['completed']. *)
Lemma processFile_final_status_matches_result_witness :
  exists st,
    fileStatuses (snd (processFile basename join funded
                                   (batch ["a.blend"] 1 false) hub "a.blend"
                                   (world_at 0))) !! "a.blend" = Some st /\
    fs_status st = st_completed.
Proof.
  set (out := processFile basename join funded (batch ["a.blend"] 1 false)
                          hub "a.blend" (world_at 0)).
  set (r := {| file := "a.blend";
               outputPath := Some (join "out" (basename "a.png"));
               jobId := Some "job-1"; cost := Some 0.008375%float;
               renderTime := Some 12%float; error := None |}).
  assert (H : out = (Ok r, snd out))
    by (apply pair_of_fst; vm_compute; reflexivity).
  destruct (processFile_final_status_matches_result basename join funded
              (batch ["a.blend"] 1 false) hub "a.blend" (world_at 0)
              (snd out) r H) as (st & Hst & Hm).
  exists st. split; [exact Hst|]. exact (proj1 Hm).
Defined.

End LifecycleExtra.

(* ================================================================== *)
(** * Further properties of the batch scheduler *)
(* ================================================================== *)

Module BatchExtra.

Import Client Scenario Invariant.

Section Tally.

Variable path_basename : string -> string.
Variable path_join : string -> string -> string.
Variable config : RaymentClientConfig.
Variable options : BatchRenderOptions.
Variable env : BatchEnv.

Local Abbreviation step := (step path_basename path_join config options env).
Local Abbreviation run := (run path_basename path_join config options env).
Local Abbreviation settle :=
  (settle path_basename path_join config options env).
Local Abbreviation fulfilled_with :=
  (fulfilled_with path_basename path_join config options env).
Local Abbreviation tally :=
  (tally_inv path_basename path_join config options env).
Local Abbreviation genuine :=
  (genuine path_basename path_join config options env).
Local Abbreviation settle_next :=
  (settle_next path_basename path_join config options env).
Local Abbreviation later := (later path_basename path_join config options env).
Local Abbreviation read_later :=
  (read_later path_basename path_join config options env).

Lemma tally_initial (schedule : list Pick) :
  tally (initial options schedule).
Proof.
  constructor; cbn.
  - left. now rewrite drop_0.
  - constructor.
  - constructor.
  - constructor.
  - reflexivity.
  - lia.
  - intros _ H. now contradiction H.
  - destruct (onBatchProgress options); [|reflexivity].
    split; [reflexivity|]. intros report H. discriminate H.
Qed.

Lemma tally_goto (l : Pc) (c : Cfg) : tally c -> tally (goto l c).
Proof. intros []. constructor; cbn; assumption. Qed.

Lemma tally_start (c : Cfg) (file_ : string) (rest : list string) :
  tally c -> queue c = file_ :: rest -> tally (start file_ rest c).
Proof.
  intros [Hq Hin Hs Hf Hc Ht Hstop Hp] E.
  assert (Hd : drop (nextPromise c) (files options) = file_ :: rest)
    by (destruct Hq as [Hq|Hq]; congruence).
  assert (Hlook : files options !! nextPromise c = Some file_).
  { pose proof (lookup_drop (files options) (nextPromise c) 0) as L.
    rewrite Hd, Nat.add_0_r in L. now rewrite <- L. }
  constructor; cbn.
  - left. rewrite (drop_S _ _ _ Hlook) in Hd. congruence.
  - apply Forall_app. split; [assumption|]. now constructor.
  - assumption.
  - assumption.
  - rewrite length_app. cbn. lia.
  - rewrite E in Ht. cbn in Ht. lia.
  - intros Hon Hne. specialize (Hstop Hon Hne). congruence.
  - destruct (onBatchProgress options); [|assumption].
    destruct Hp as [Hl Hlast]. split; [assumption|].
    intros report Hr. exact (Hlast report Hr).
Qed.

Lemma tally_settle (i p : nat) (file_ : string) (t : Z) (c : Cfg) :
  tally c -> inflight c !! i = Some (p, file_) ->
  tally (settle i p file_ t (drop_pick c)).
Proof.
  intros [Hq Hin Hs Hf Hc Ht Hstop Hp] Hi.
  assert (Hfile : files options !! p = Some file_).
  { rewrite Forall_forall in Hin.
    apply (Hin (p, file_)). eapply list_elem_of_lookup_2, Hi. }
  assert (Hgen : genuine (fulfilled_with p file_)) by (now exists p, file_).
  assert (Hlen : length (delete i (inflight c)) = length (inflight c) - 1)
    by (apply length_delete; eauto).
  assert (Hpos : 0 < length (inflight c))
    by (apply lookup_lt_Some in Hi; lia).
  assert (Hsub : Forall (fun x => files options !! x.1 = Some x.2)
                        (delete i (inflight c)))
    by (now apply Forall_delete).
  unfold Client.settle, updateBatchProgress.
  destruct (truthy (error (fulfilled_with p file_))) eqn:Etr;
    constructor;
    cbn [drop_pick pc queue activePromises inflight successful_so_far
         failed_so_far nextPromise progress picks].
  - destruct (stopOnError' options); [now right|exact Hq].
  - exact Hsub.
  - exact Hs.
  - apply Forall_app. split; [exact Hf|]. constructor; [now split|constructor].
  - rewrite length_app, Hlen. cbn. lia.
  - destruct (stopOnError' options); cbn; lia.
  - intros Hon _. now rewrite Hon.
  - destruct (onBatchProgress options); [|exact Hp].
    destruct Hp as [Hl _]. split.
    + rewrite !length_app. cbn. lia.
    + intros report Hr. rewrite last_snoc in Hr. inversion Hr; subst.
      now repeat split.
  - exact Hq.
  - exact Hsub.
  - apply Forall_app. split; [exact Hs|]. constructor; [now split|constructor].
  - exact Hf.
  - rewrite length_app, Hlen. cbn. lia.
  - exact Ht.
  - exact Hstop.
  - destruct (onBatchProgress options); [|exact Hp].
    destruct Hp as [Hl _]. split.
    + rewrite !length_app. cbn. lia.
    + intros report Hr. rewrite last_snoc in Hr. inversion Hr; subst.
      now repeat split.
Qed.

Lemma tally_step (c : Cfg) : tally c -> tally (step c).
Proof.
  intros T. unfold Client.step. destruct (pc c) as [| |raced settled|].
  - destruct (_ || _); now apply tally_goto.
  - destruct (queue c) as [|file_ rest] eqn:Hq.
    + destruct (0 <? _); now apply tally_goto.
    + destruct (_ <? _)%Z; [now apply tally_start|].
      destruct (0 <? _); now apply tally_goto.
  - destruct (inflight c !! _) as [[p file_]|] eqn:Hi.
    + destruct (_ && _); apply tally_goto; now apply tally_settle.
    + destruct settled; [now apply tally_goto|assumption].
  - assumption.
Qed.

Lemma tally_run (schedule : list Pick) (n : nat) :
  tally (run n (initial options schedule)).
Proof.
  induction n as [|n IH]; [apply tally_initial|].
  cbn. now apply tally_step.
Qed.

(** X24. Lifecycles are started in the order of the input: at every
    step the [p]-th lifecycle started is in flight for the [p]-th file,
    the queue holds the files from the next rank on unless it has been
    emptied, and no more lifecycles have been started than there are
    files. *)
Theorem renderBatch_starts_in_input_order (schedule : list Pick) (n : nat) :
  let c := run n (initial options schedule) in
  Forall (fun x => files options !! x.1 = Some x.2) (inflight c) /\
  (queue c = drop (nextPromise c) (files options) \/ queue c = []) /\
  length (successful_so_far c) + length (failed_so_far c)
  + length (inflight c) = nextPromise c /\
  nextPromise c <= length (files options).
Proof.
  cbn zeta. destruct (tally_run schedule n) as [Hq Hin _ _ Hc Ht _ _].
  repeat split; try assumption. lia.
Qed.

(** After the return the callbacks of the lifecycles still in flight
    keep the tally, and the two lists only grow. *)
Lemma tally_settle_next (c : Cfg) : tally c -> tally (settle_next c).
Proof.
  intros T. unfold Client.settle_next.
  destruct (inflight c !! _) as [[p file_]|] eqn:Hi; [|exact T].
  now apply tally_settle.
Qed.

Lemma tally_later (n : nat) (c : Cfg) : tally c -> tally (later n c).
Proof.
  intros T. induction n as [|n IH]; [exact T|].
  change (later (S n) c) with (settle_next (later n c)).
  now apply tally_settle_next.
Qed.

Lemma settle_next_grows (c : Cfg) :
  successful_so_far c `prefix_of` successful_so_far (settle_next c) /\
  failed_so_far c `prefix_of` failed_so_far (settle_next c).
Proof.
  unfold Client.settle_next.
  destruct (inflight c !! _) as [[p file_]|]; [|now split].
  unfold Client.settle. destruct (truthy _); cbn; split;
    try reflexivity; now apply prefix_app_r.
Qed.

Lemma later_grows (n : nat) (c : Cfg) :
  successful_so_far c `prefix_of` successful_so_far (later n c) /\
  failed_so_far c `prefix_of` failed_so_far (later n c).
Proof.
  induction n as [|n [IHs IHf]]; [now split|].
  change (later (S n) c) with (settle_next (later n c)).
  destruct (settle_next_grows (later n c)) as [Hs Hf].
  split; etrans; eassumption.
Qed.

Lemma later_idle (n : nat) (c : Cfg) : inflight c = [] -> later n c = c.
Proof.
  intros Hin. induction n as [|n IH]; [reflexivity|].
  change (later (S n) c) with (settle_next (later n c)).
  rewrite IH. unfold Client.settle_next. now rewrite Hin.
Qed.

(** X25. Whatever the files, duplicates included.  At the moment
    [renderBatch] returns, every entry of its result is the outcome of
    the lifecycle of an input file, an entry is in [failed] when it has
    an error and in [successful] when it has none, and the counts of
    [stats] are the lengths of the two lists, whose sum does not exceed
    the number of files.  The result holds the live lists: what a
    lifecycle still in flight pushes after the return is again the
    outcome of the lifecycle of an input file, in the list that its
    error tells, after the entries already there, and the sum of the
    lengths stays within the number of files, while [stats] keeps the
    figures of the return.  On distinct files nothing is in flight at
    the return and the result never changes. *)
Theorem renderBatch_result_is_genuine (schedule : list Pick) (fuel : nat)
    (r : BatchRenderResult) :
  renderBatch path_basename path_join config options env schedule fuel
  = Some (Ok r) ->
  (Forall (fun x => genuine x /\ truthy (error x) = false) (successful r) /\
   Forall (fun x => genuine x /\ truthy (error x) = true) (failed r) /\
   stats_completed (stats r) = length (successful r) /\
   stats_failed (stats r) = length (failed r) /\
   stats_total (stats r) = length (files options) /\
   length (successful r) + length (failed r) <= length (files options)) /\
  forall n,
    let r' := read_later n (run fuel (initial options schedule)) in
    successful r `prefix_of` successful r' /\
    failed r `prefix_of` failed r' /\
    Forall (fun x => genuine x /\ truthy (error x) = false)
           (successful r') /\
    Forall (fun x => genuine x /\ truthy (error x) = true) (failed r') /\
    length (successful r') + length (failed r') <= length (files options) /\
    stats r' = stats r /\
    (NoDup (files options) -> r' = r).
Proof.
  unfold renderBatch. destruct (length (files options) =? 0); [discriminate|].
  destruct (if outputDirExists env then None else mkdirSync env);
    [discriminate|].
  destruct (pc (run fuel (initial options schedule))) eqn:Hpc;
    try discriminate.
  intros [= <-]. split.
  - destruct (tally_run schedule fuel) as [_ _ Hs Hf Hc Ht _ _].
    cbn [batch_result successful failed stats stats_completed stats_failed
         stats_total].
    repeat split; try assumption. lia.
  - intros n.
    destruct (tally_later n _ (tally_run schedule fuel))
      as [_ _ Hs Hf Hc Ht _ _].
    destruct (later_grows n (run fuel (initial options schedule)))
      as [Gs Gf].
    cbn zeta. unfold Client.read_later.
    cbn [batch_result successful failed stats].
    repeat split; try assumption; [lia|].
    intros N.
    pose proof (BatchSpec.run_inv path_basename path_join config options
                  env fuel _ (BatchSpec.initial_inv options schedule N)) as I.
    destruct I as [_ _ _ _ Ipc _ _]. rewrite Hpc in Ipc.
    destruct Ipc as [_ Hin]. now rewrite (later_idle n _ Hin).
Qed.

(** A step adds at most one failure, and starts nothing when the queue
    is empty. *)
Lemma step_failed_grows (c : Cfg) :
  failed_so_far c <> [] -> failed_so_far (step c) <> [].
Proof.
  intros Hne. unfold Client.step. destruct (pc c) as [| |raced settled|].
  - now destruct (_ || _).
  - destruct (queue c) as [|file_ rest].
    + now destruct (0 <? _).
    + destruct (_ <? _)%Z; [exact Hne|]. now destruct (0 <? _).
  - destruct (inflight c !! _) as [[p file_]|].
    + assert (H : failed_so_far
                    (settle (which (next_pick env c) mod length (inflight c))
                            p file_ (at_time (next_pick env c))
                            (drop_pick c)) <> []).
      { unfold Client.settle. destruct (truthy _); cbn; [|exact Hne].
        now destruct (failed_so_far c). }
      now destruct (_ && _).
    + now destruct settled.
  - exact Hne.
Qed.

Lemma step_idle (c : Cfg) :
  queue c = [] -> nextPromise (step c) = nextPromise c.
Proof.
  intros Hq. unfold Client.step. destruct (pc c) as [| |raced settled|].
  - now destruct (_ || _).
  - rewrite Hq. now destruct (0 <? _).
  - destruct (inflight c !! _) as [[p file_]|].
    + assert (H : nextPromise
                    (settle (which (next_pick env c) mod length (inflight c))
                            p file_ (at_time (next_pick env c))
                            (drop_pick c)) = nextPromise c)
        by (unfold Client.settle; now destruct (truthy _)).
      now destruct (_ && _).
    + now destruct settled.
  - reflexivity.
Qed.

(** X26. With [stopOnError], no lifecycle is started after a failure has
    been recorded: from then on the number of started lifecycles stays
    what it is. *)
Theorem renderBatch_stops_starting_after_failure
    (schedule : list Pick) (n k : nat) :
  stopOnError' options = true ->
  failed_so_far (run n (initial options schedule)) <> [] ->
  nextPromise (run (k + n) (initial options schedule))
  = nextPromise (run n (initial options schedule)) /\
  queue (run (k + n) (initial options schedule)) = [].
Proof.
  intros Hstop Hfail.
  assert (H : failed_so_far (run (k + n) (initial options schedule)) <> []
              /\ nextPromise (run (k + n) (initial options schedule))
                 = nextPromise (run n (initial options schedule))).
  { induction k as [|k [IHf IHn]]; [now split|].
    change (run (S k + n) (initial options schedule))
      with (step (run (k + n) (initial options schedule))).
    split; [now apply step_failed_grows|].
    rewrite step_idle; [exact IHn|].
    exact (tal_stop _ _ _ _ _ _ (tally_run schedule (k + n)) Hstop IHf). }
  destruct H as [Hf Hn]. split; [exact Hn|].
  exact (tal_stop _ _ _ _ _ _ (tally_run schedule (k + n)) Hstop Hf).
Qed.

(** X27. The batch listener is told once per settled lifecycle, and its
    last report shows the counts of the moment: the number of files and
    the lengths of the two lists.  Its figure for the renders in
    progress is the number of lifecycles in flight plus the number of
    files not started, whether they are still queued or were dropped
    from the queue. *)
Theorem renderBatch_progress_reports (schedule : list Pick) (n : nat) :
  onBatchProgress options = true ->
  let c := run n (initial options schedule) in
  length (progress c)
  = length (successful_so_far c) + length (failed_so_far c) /\
  forall report,
    last (progress c) = Some report ->
    bp_total report = length (files options) /\
    bp_completed report = length (successful_so_far c) /\
    bp_failed report = length (failed_so_far c) /\
    bp_inProgress report = Z.of_nat (length (inflight c)
                                     + (length (files options)
                                        - nextPromise c)).
Proof.
  intros Hon c. destruct (tally_run schedule n) as [_ _ _ _ Hc Ht _ Hp].
  fold c in Hc, Ht, Hp. rewrite Hon in Hp. destruct Hp as [Hl Hlast].
  split; [exact Hl|]. intros report Hr.
  destruct (Hlast report Hr) as (H1 & H2 & H3 & H4).
  repeat split; try assumption. rewrite H4. lia.
Qed.

(** X28. On distinct files the map of active promises mirrors what is
    in flight at every step: it has one entry per lifecycle in flight,
    under that lifecycle's file, the files in flight are distinct and
    none of them is still queued, and the map never holds more than
    [concurrency] entries. *)
Theorem renderBatch_active_map_mirrors_flight
    (schedule : list Pick) (n : nat) :
  NoDup (files options) ->
  let c := run n (initial options schedule) in
  size (activePromises c) = length (inflight c) /\
  (forall i p f,
     inflight c !! i = Some (p, f) -> activePromises c !! f = Some p) /\
  NoDup ((inflight c).*2 ++ queue c) /\
  (Z.of_nat (size (activePromises c)) <= Z.max 0 (concurrency' options))%Z.
Proof.
  intros N c.
  assert (I : batch_inv options c)
    by (apply BatchSpec.run_inv, BatchSpec.initial_inv, N).
  pose proof (BatchSpec.size_active options c I) as Hsize.
  split; [exact Hsize|]. split; [|split].
  - intros i p f Hi. exact (BatchSpec.inflight_active options c i p f I Hi).
  - exact (inv_nodup options c I).
  - rewrite Hsize. exact (inv_bound options c I).
Qed.

End Tally.

(** ** [renderBatchSimple] *)



(** ** At concrete batches *)

Lemma renderBatch_result_is_genuine_witness :
  exists r,
    renderBatch basename join funded
      (batch ["a.blend"; "b.blend"; "c.blend"] 3 false)
      (outside (fun p => if Nat.eqb p 1 then hub_missing_file else hub)) []
      40 = Some (Ok r) /\
    length (successful r) + length (failed r) <= 3.
Proof.
  eexists. split; [vm_compute; reflexivity|].
  eapply (proj1 (renderBatch_result_is_genuine basename join funded
            (batch ["a.blend"; "b.blend"; "c.blend"] 3 false)
            (outside (fun p => if Nat.eqb p 1 then hub_missing_file else hub))
            [] 40 _ _)).
  Unshelve. vm_compute. reflexivity.
Defined.

(** Three times the same scene, two at a time, the lifecycle started
    last settling first: [renderBatch] returns then, with a count of
    one; the two lifecycles still in flight push to the list the result
    holds, and the count stays at one. *)
Lemma renderBatch_counts_go_stale_on_repeated_file :
  let o := batch ["a.blend"; "a.blend"; "a.blend"] 2 false in
  let e := outside (fun _ => hub) in
  let last_first := [{| which := 2; linger := false; at_time := 600 |}] in
  let c := run basename join funded o e 40 (initial o last_first) in
  exists r,
    renderBatch basename join funded o e last_first 40 = Some (Ok r) /\
    length (inflight c) = 2 /\
    length (successful r) = 1 /\
    stats_completed (stats r) = 1 /\
    length (successful (read_later basename join funded o e 2 c)) = 3 /\
    stats_completed (stats (read_later basename join funded o e 2 c)) = 1.
Proof.
  cbn zeta. eexists. split; [vm_compute; reflexivity|].
  repeat split; vm_compute; reflexivity.
Qed.

(** Three scenes, one at a time, stopping at the first failure: the
    first scene is missing. *)
Lemma renderBatch_stops_starting_after_failure_witness :
  nextPromise (run basename join funded
                 (batch ["a.blend"; "b.blend"; "c.blend"] 1 true)
                 (outside (fun p => if Nat.eqb p 0 then hub_missing_file
                                    else hub))
                 (7 + 4)
                 (initial (batch ["a.blend"; "b.blend"; "c.blend"] 1 true)
                          []))
  = 1.
Proof.
  refine (eq_trans
            (proj1 (renderBatch_stops_starting_after_failure basename join
                      funded
                      (batch ["a.blend"; "b.blend"; "c.blend"] 1 true)
                      (outside (fun p => if Nat.eqb p 0
                                         then hub_missing_file else hub))
                      [] 4 7 _ _)) _).
  - reflexivity.
  - vm_compute. intros H. discriminate H.
  - vm_compute. reflexivity.
Defined.

Lemma renderBatch_progress_reports_witness :
  length (progress (run basename join funded
                      (batch ["a.blend"; "b.blend"] 2 false)
                      (outside (fun _ => hub)) 40
                      (initial (batch ["a.blend"; "b.blend"] 2 false) [])))
  = 2.
Proof.
  refine (eq_trans
            (proj1 (renderBatch_progress_reports basename join funded
                      (batch ["a.blend"; "b.blend"] 2 false)
                      (outside (fun _ => hub)) [] 40 _)) _).
  - reflexivity.
  - vm_compute. reflexivity.
Defined.

Lemma renderBatch_active_map_mirrors_flight_witness :
  size (activePromises
          (run basename join funded
               (batch ["a.blend"; "b.blend"; "c.blend"] 2 false)
               (outside (fun _ => hub)) 3
               (initial (batch ["a.blend"; "b.blend"; "c.blend"] 2 false)
                        [])))
  = length (inflight
              (run basename join funded
                   (batch ["a.blend"; "b.blend"; "c.blend"] 2 false)
                   (outside (fun _ => hub)) 3
                   (initial (batch ["a.blend"; "b.blend"; "c.blend"] 2 false)
                            []))).
Proof.
  refine (proj1 (renderBatch_active_map_mirrors_flight basename join funded
                   (batch ["a.blend"; "b.blend"; "c.blend"] 2 false)
                   (outside (fun _ => hub)) [] 3 _)).
  apply (bool_decide_unpack (NoDup _)). vm_compute. exact Logic.I.
Defined.


End BatchExtra.
